(** * validate_phase_encoding: a model of the sidecar linter and its properties

    The development embeds [validate_phase_encoding.py]:
    [infer_direction_from_dir], [validate_json] and [main], together with the
    parts of the Python runtime they rely on (dictionaries, truthiness,
    hashing of set members, [str.upper], [in] on strings, [Path.rglob],
    [Path.read_text] / [Path.write_text], uncaught exceptions and the exit
    status of the interpreter).

    Modelling choices.
    - A Python [str] is a [string]; [str.upper] is the ASCII case mapping
      (characters outside ASCII are left as they are, where Python maps
      some of them too: statements about the letter case of a hint are
      made for [is_ascii] strings).
    - A decoded JSON document is a [json] value; a [dict] is an association
      list in insertion order.
    - The [json] module is an interface, [JsonLib]: the program only needs
      that a parsed document, after one of its keys has been assigned a
      string, serialises to text that parses back to the same mapping.  A
      small concrete implementation, [MiniJson], is verified against that
      interface and used to run the model on concrete file contents and
      to state what is written to a file.  It reads integer literals of
      any length, as CPython does before 3.11.
    - The file system is a finite map from paths to entries; a path is the
      list of its components.
    - Effects are a state (file system), writer (printed lines) and
      exception monad, [M].  [print] always succeeds, a write either
      replaces the whole content or fails and leaves the file as it was,
      and the tree has no symbolic links. *)

From Stdlib Require Import ZArith String Ascii List Bool Lia.
From Stdlib Require Import DecimalN DecimalFacts.
From Stdlib Require Import Floats.SpecFloat.
From stdpp Require Import gmap strings list fin_maps.

Open Scope string_scope.

#[local] Arguments String.append _ _ : simpl nomatch.

(** ** Strings: [str.upper] and the [in] operator *)

Definition upper_char (c : ascii) : ascii :=
  let n := nat_of_ascii c in
  if (97 <=? n)%nat && (n <=? 122)%nat then ascii_of_nat (n - 32) else c.

Fixpoint upper (s : string) : string :=
  match s with
  | EmptyString => EmptyString
  | String c s' => String (upper_char c) (upper s')
  end.

(** The strings on which [upper] is [str.upper]: outside ASCII,
    [str.upper] also maps letters, some to letters of other blocks or to
    two letters. *)
Fixpoint is_ascii (s : string) : bool :=
  match s with
  | EmptyString => true
  | String c s' => (nat_of_ascii c <? 128)%nat && is_ascii s'
  end.

(** [contains sub s] is Python's [sub in s]. *)
Fixpoint contains (sub s : string) : bool :=
  String.prefix sub s ||
  match s with
  | EmptyString => false
  | String _ s' => contains sub s'
  end.

(** The mathematical reading of [sub in s]. *)
Definition is_substring (sub s : string) : Prop :=
  exists a b, s = a +:+ sub +:+ b.

(** ** Decoded JSON documents and Python dictionaries *)

#[local] Unset Elimination Schemes.
Inductive json : Type :=
| JNull
| JBool (b : bool)
| JInt (z : Z)
| JFloat (f : spec_float)
| JStr (s : string)
| JArr (items : list json)
| JObj (members : list (string * json)).
#[local] Set Elimination Schemes.

(** Structural induction through the nested lists. *)
Section json_induction.
Variable P : json -> Prop.
Hypothesis HNull : P JNull.
Hypothesis HBool : forall b, P (JBool b).
Hypothesis HInt : forall z, P (JInt z).
Hypothesis HFloat : forall f, P (JFloat f).
Hypothesis HStr : forall s, P (JStr s).
Hypothesis HArr : forall l, Forall P l -> P (JArr l).
Hypothesis HObj : forall d, Forall (fun kv => P (snd kv)) d -> P (JObj d).

Fixpoint json_ind (v : json) : P v :=
  match v with
  | JNull => HNull
  | JBool b => HBool b
  | JInt z => HInt z
  | JFloat f => HFloat f
  | JStr s => HStr s
  | JArr l =>
      HArr l ((fix all (l : list json) : Forall P l :=
                 match l with
                 | [] => @List.Forall_nil _ P
                 | x :: l' => @List.Forall_cons _ P x l' (json_ind x) (all l')
                 end) l)
  | JObj d =>
      HObj d ((fix all (d : list (string * json))
                 : Forall (fun kv => P (snd kv)) d :=
                 match d with
                 | [] => @List.Forall_nil _ _
                 | (k, x) :: d' =>
                     @List.Forall_cons _ (fun kv => P (snd kv)) (k, x) d'
                       (json_ind x) (all d')
                 end) d)
  end.
End json_induction.

Definition dict := list (string * json).

Fixpoint dict_lookup (k : string) (d : dict) : option json :=
  match d with
  | [] => None
  | (k', v) :: d' => if String.eqb k k' then Some v else dict_lookup k d'
  end.

(** [d.get(k)]: the value, or [None] when the key is missing. *)
Definition dict_get (d : dict) (k : string) : json :=
  match dict_lookup k d with
  | Some v => v
  | None => JNull
  end.

(** [d[k] = v]: replace in place, or append a new key at the end. *)
Fixpoint dict_set (d : dict) (k : string) (v : json) : dict :=
  match d with
  | [] => [(k, v)]
  | (k', v') :: d' =>
      if String.eqb k k' then (k', v) :: d' else (k', v') :: dict_set d' k v
  end.

(** Truth value of a Python object, as used by [or] and [if]. *)
Definition truthy (v : json) : bool :=
  match v with
  | JNull => false
  | JBool b => b
  | JInt z => negb (z =? 0)%Z
  | JFloat (S754_zero _) => false
  | JFloat _ => true
  | JStr s => negb (String.eqb s "")
  | JArr l => match l with [] => false | _ => true end
  | JObj d => match d with [] => false | _ => true end
  end.

(** ** Exceptions *)

Inductive exn : Type :=
| JSONDecodeError
| OSError
| TypeError
| AttributeError
| SystemExit (code : Z).

(** [SystemExit] derives from [BaseException] only. *)
Definition is_Exception (e : exn) : bool :=
  match e with
  | SystemExit _ => false
  | _ => true
  end.

Inductive res (A : Type) : Type :=
| Ret (a : A)
| Raise (e : exn).
Arguments Ret {A} a.
Arguments Raise {A} e.

Definition res_bind {A B} (r : res A) (k : A -> res B) : res B :=
  match r with
  | Ret a => k a
  | Raise e => Raise e
  end.

Declare Scope res_scope.
Delimit Scope res_scope with res.
Notation "x <- r ;; k" := (res_bind r (fun x => k))
  (at level 100, r at next level, right associativity) : res_scope.

(** [meta.get(k)]: only a [dict] has the method. *)
Definition py_get (meta : json) (k : string) : res json :=
  match meta with
  | JObj d => Ret (dict_get d k)
  | _ => Raise AttributeError
  end.

(** [v.upper()]: only a [str] has the method. *)
Definition py_upper (v : json) : res string :=
  match v with
  | JStr s => Ret (upper s)
  | _ => Raise AttributeError
  end.

(** [a or b]. *)
Definition py_or (a b : json) : json := if truthy a then a else b.

(** ** Paths *)

Definition path := list string.

(** [path.name]: the final component. *)
Definition path_name (p : path) : string := List.last p "".

(** ** The program: constants and inference *)

Definition VALID_DIRECTIONS : gset string :=
  {[ "i"; "i-"; "j"; "j-"; "k"; "k-" ]}.

(** [v in VALID_DIRECTIONS]: the member is hashed first, and lists and
    dictionaries are unhashable. *)
Definition in_VALID_DIRECTIONS (v : json) : res bool :=
  match v with
  | JArr _ | JObj _ => Raise TypeError
  | JStr s => Ret (bool_decide (s ∈ VALID_DIRECTIONS))
  | _ => Ret false
  end.

(** The [if "PA" in name: ...] chain on the upper-cased name. *)
Definition infer_from_name (name : string) : option string :=
  if contains "PA" name then Some "j-"
  else if contains "AP" name then Some "j"
  else if contains "RL" name then Some "i"
  else if contains "LR" name then Some "i-"
  else if contains "SI" name then Some "k"
  else if contains "IS" name then Some "k-"
  else None.

(** [name = (meta.get("dir") or path.name).upper()]. *)
Definition hint_name (meta : json) (p : path) : res string :=
  (d <- py_get meta "dir" ;;
   py_upper (py_or d (JStr (path_name p))))%res.

Definition infer_direction_from_dir (meta : json) (p : path)
  : res (option string) :=
  (name <- hint_name meta p ;;
   Ret (infer_from_name name))%res.

(** The inference as the specification words it: an ordered list of
    (code, direction) pairs, the first code contained in the name wins. *)
Definition direction_codes : list (string * string) :=
  [("PA", "j-"); ("AP", "j"); ("RL", "i"); ("LR", "i-"); ("SI", "k"); ("IS", "k-")].

Definition spec_first_match (name : string) : option string :=
  option_map snd (List.find (fun r => contains (fst r) name) direction_codes).

(** ** The [json] module

    [loads] is [json.loads] ([None] when it raises), [dumps] is
    [json.dumps(_, indent=2)].  The one law is the part of the library's
    contract the program depends on: a document that was parsed and then had
    a string assigned to one of its keys is written as text that reads back
    as the same mapping. *)

Class JsonLib : Type := {
  loads : string -> option json;
  dumps : json -> string;
  loads_dumps_setitem :
    forall text d k s,
      loads text = Some (JObj d) ->
      loads (dumps (JObj (dict_set d k (JStr s))))
      = Some (JObj (dict_set d k (JStr s)))
}.

(** ** The file system *)

Inductive entry : Type :=
| Dir
| File (text : string) (readable writable : bool).

Abbreviation fs := (gmap path entry).

(** ** Console output

    One constructor per [print] call of the program; the arguments are the
    values interpolated into the line. *)

Inductive msg : Type :=
| MsgInvalidJSON (json_path : path) (e : exn)
| MsgValid (json_path : path) (ped : json)
| MsgInvalidOrMissing (json_path : path) (ped : json)
| MsgFixed (guess : json)
| MsgCouldNotInfer
| MsgNoFiles (bids_root : path)
| MsgChecking (n : nat) (bids_root : path)
| MsgSummary (n_valid n : nat)
| MsgAllUpdated.

(** ** The effect monad: file system, printed lines, exceptions *)

Definition M (A : Type) : Type := fs -> res A * fs * list msg.

Definition mret {A} (a : A) : M A := fun s => (Ret a, s, []).

Definition mbind {A B} (m : M A) (k : A -> M B) : M B :=
  fun s =>
    match m s with
    | (Ret a, s1, o1) => let '(r, s2, o2) := k a s1 in (r, s2, (o1 ++ o2)%list)
    | (Raise e, s1, o1) => (Raise e, s1, o1)
    end.

Definition raise {A} (e : exn) : M A := fun s => (Raise e, s, []).

Definition lift {A} (r : res A) : M A := fun s => (r, s, []).

Definition print (m : msg) : M unit := fun s => (Ret tt, s, [m]).

(** [try: body / except Exception as e: handler e]. *)
Definition try_except {A} (body : M A) (handler : exn -> M A) : M A :=
  fun s =>
    match body s with
    | (Ret a, s1, o1) => (Ret a, s1, o1)
    | (Raise e, s1, o1) =>
        if is_Exception e
        then let '(r, s2, o2) := handler e s1 in (r, s2, (o1 ++ o2)%list)
        else (Raise e, s1, o1)
    end.

Declare Scope M_scope.
Delimit Scope M_scope with M.
Notation "x <- m ;; k" := (mbind m (fun x => k))
  (at level 100, m at next level, right associativity) : M_scope.
Notation "m ;; k" := (mbind m (fun _ => k))
  (at level 100, right associativity) : M_scope.

(** [Path.read_text]: fails on a missing path, a directory, or a file that
    cannot be opened or decoded. *)
Definition read_text (p : path) : M string :=
  fun s =>
    match s !! p with
    | Some (File text true _) => (Ret text, s, [])
    | _ => (Raise OSError, s, [])
    end.

(** [Path.write_text]: replaces the content of a writable file, creates a
    missing one, fails otherwise and then leaves the entry as it was. *)
Definition write_text (p : path) (text : string) : M unit :=
  fun s =>
    match s !! p with
    | Some (File _ r true) => (Ret tt, <[p := File text r true]> s, [])
    | None => (Ret tt, <[p := File text true true]> s, [])
    | Some _ => (Raise OSError, s, [])
    end.

(** *** Globbing *)

(** One path component against a wildcard pattern ([*] and [?]). *)
Fixpoint fnmatch (pat name : string) : bool :=
  match pat with
  | EmptyString => match name with EmptyString => true | _ => false end
  | String "*" pat' =>
      (fix star (n : string) : bool :=
         fnmatch pat' n ||
         match n with
         | EmptyString => false
         | String _ n' => star n'
         end) name
  | String "?" pat' =>
      match name with
      | EmptyString => false
      | String _ n' => fnmatch pat' n'
      end
  | String c pat' =>
      match name with
      | EmptyString => false
      | String d n' => Ascii.eqb c d && fnmatch pat' n'
      end
  end.

(** A relative path against a pattern split at [/]; the segment [**]
    stands for any number of directories, none included. *)
Fixpoint glob_match (pats : list string) (rel : path) : bool :=
  match pats with
  | [] => match rel with [] => true | _ => false end
  | pat :: pats' =>
      if String.eqb pat "**" then
        (fix skip (r : path) : bool :=
           glob_match pats' r ||
           match r with
           | [] => false
           | _ :: r' => skip r'
           end) rel
      else
        match rel with
        | [] => false
        | c :: rel' => fnmatch pat c && glob_match pats' rel'
        end
  end.

Fixpoint strip_prefix (root p : path) : option path :=
  match root with
  | [] => Some p
  | r :: root' =>
      match p with
      | [] => None
      | c :: p' => if String.eqb r c then strip_prefix root' p' else None
      end
  end.

Definition under_root_matches (root : path) (pats : list string) (p : path)
  : bool :=
  match strip_prefix root p with
  | Some rel => glob_match pats rel
  | None => false
  end.

(** [list(root.rglob(pattern))]: [rglob] is [glob] with [**/] in front; every
    entry below the root whose relative path matches is listed once. *)
Definition matching_paths (root : path) (pattern : list string) (s : fs)
  : list path :=
  List.filter (under_root_matches root ("**" :: pattern)) (elements (dom s)).

Definition rglob (root : path) (pattern : list string) : M (list path) :=
  fun s => (Ret (matching_paths root pattern s), s, []).

(** ** The program: per-file validation and the driver *)

Definition target : string := "PhaseEncodingDirection".

Definition pattern : list string := ["sub-*"; "**"; "dwi"; "*.json"].

(** [json.loads(text)]. *)
Definition py_loads `{JsonLib} (text : string) : M json :=
  match loads text with
  | Some v => mret v
  | None => raise JSONDecodeError
  end.

(** The value returned by the inference as a Python object. *)
Definition py_of_guess (guess : option string) : json :=
  match guess with
  | Some g => JStr g
  | None => JNull
  end.

(** [meta[k] = v]: item assignment on a [dict]. *)
Definition py_setitem (meta : json) (k : string) (v : json) : res json :=
  match meta with
  | JObj d => Ret (JObj (dict_set d k v))
  | _ => Raise TypeError
  end.

(** [validate_json(json_path, fix)].  The [return False] of the [except]
    clause is the [None] branch of the first step. *)
Definition validate_json `{JsonLib} (json_path : path) (fix_ : bool) : M bool :=
  (parsed <- try_except
               (text <- read_text json_path ;;
                meta <- py_loads text ;;
                mret (Some meta))
               (fun e => print (MsgInvalidJSON json_path e) ;; mret None) ;;
   match parsed with
   | None => mret false
   | Some meta =>
       ped <- lift (py_get meta target) ;;
       valid <- lift (in_VALID_DIRECTIONS ped) ;;
       if valid : bool then
         print (MsgValid json_path ped) ;;
         mret true
       else
         print (MsgInvalidOrMissing json_path ped) ;;
         if fix_ then
           guess <- lift (infer_direction_from_dir meta json_path) ;;
           if truthy (py_of_guess guess) then
             meta' <- lift (py_setitem meta target (py_of_guess guess)) ;;
             write_text json_path (dumps meta') ;;
             print (MsgFixed (py_of_guess guess)) ;;
             mret true
           else
             print MsgCouldNotInfer ;;
             mret false
         else mret false
   end)%M.

(** [for js in json_files: if validate_json(js, fix): n_valid += 1]. *)
Fixpoint count_valid `{JsonLib} (json_files : list path) (fix_ : bool)
  (n_valid : nat) : M nat :=
  match json_files with
  | [] => mret n_valid
  | js :: rest =>
      (ok <- validate_json js fix_ ;;
       count_valid rest fix_ (if ok : bool then S n_valid else n_valid))%M
  end.

Definition main `{JsonLib} (bids_root : path) (fix_ : bool) : M unit :=
  (json_files <- rglob bids_root pattern ;;
   (match json_files with
    | [] => print (MsgNoFiles bids_root) ;; raise (SystemExit 1)
    | _ => mret tt
    end) ;;
   print (MsgChecking (length json_files) bids_root) ;;
   n_valid <- count_valid json_files fix_ 0 ;;
   print (MsgSummary n_valid (length json_files)) ;;
   if fix_ then print MsgAllUpdated else mret tt)%M.

(** Exit status of the interpreter running the script: 0 when [main]
    returns, the code of [sys.exit], 1 after a traceback. *)
Definition exit_status (r : res unit) : Z :=
  match r with
  | Ret _ => 0
  | Raise (SystemExit code) => code
  | Raise _ => 1
  end.

Definition run_script `{JsonLib} (bids_root : path) (fix_ : bool) (s : fs)
  : Z * fs * list msg :=
  let '(r, s', out) := main bids_root fix_ s in (exit_status r, s', out).

(** ** Outcomes

    The five outcomes of the specification, read off what a call of
    [validate_json] returned and printed; [None] is a call that ended in an
    uncaught exception. *)

Inductive Outcome : Type :=
| Valid
| InvalidUnfixed
| InvalidFixed
| InvalidUninferable
| ParseError.

Definition outcome_of (r : res bool) (out : list msg) : option Outcome :=
  match r, out with
  | Ret true, [MsgValid _ _] => Some Valid
  | Ret false, [MsgInvalidJSON _ _] => Some ParseError
  | Ret false, [MsgInvalidOrMissing _ _] => Some InvalidUnfixed
  | Ret true, [MsgInvalidOrMissing _ _; MsgFixed _] => Some InvalidFixed
  | Ret false, [MsgInvalidOrMissing _ _; MsgCouldNotInfer] =>
      Some InvalidUninferable
  | _, _ => None
  end.

Definition outcome `{JsonLib} (json_path : path) (fix_ : bool) (s : fs)
  : option Outcome :=
  let '(r, _, out) := validate_json json_path fix_ s in outcome_of r out.

(** ** Notions used in the statements *)

Section Notions.
Context `{JsonLib}.

(** The text [read_text] returns for [p], if it returns. *)
Definition readable_text (s : fs) (p : path) : option string :=
  match s !! p with
  | Some (File text true _) => Some text
  | _ => None
  end.

(** The paths through [validate_json], one constructor per way a call can
    end: what the file held, what was returned or raised, the file system
    afterwards and the lines printed. *)
Inductive validates (p : path) (fix_ : bool) (s : fs)
  : res bool -> fs -> list msg -> Prop :=
| V_unreadable :
    readable_text s p = None ->
    validates p fix_ s (Ret false) s [MsgInvalidJSON p OSError]
| V_malformed text :
    readable_text s p = Some text -> loads text = None ->
    validates p fix_ s (Ret false) s [MsgInvalidJSON p JSONDecodeError]
| V_not_a_dict text meta :
    readable_text s p = Some text -> loads text = Some meta ->
    py_get meta target = Raise AttributeError ->
    validates p fix_ s (Raise AttributeError) s []
| V_unhashable text d :
    readable_text s p = Some text -> loads text = Some (JObj d) ->
    in_VALID_DIRECTIONS (dict_get d target) = Raise TypeError ->
    validates p fix_ s (Raise TypeError) s []
| V_valid text d g :
    readable_text s p = Some text -> loads text = Some (JObj d) ->
    dict_get d target = JStr g -> g ∈ VALID_DIRECTIONS ->
    validates p fix_ s (Ret true) s [MsgValid p (JStr g)]
| V_unfixed text d :
    readable_text s p = Some text -> loads text = Some (JObj d) ->
    in_VALID_DIRECTIONS (dict_get d target) = Ret false ->
    fix_ = false ->
    validates p fix_ s (Ret false) s
      [MsgInvalidOrMissing p (dict_get d target)]
| V_hint_fault text d :
    readable_text s p = Some text -> loads text = Some (JObj d) ->
    in_VALID_DIRECTIONS (dict_get d target) = Ret false ->
    fix_ = true ->
    infer_direction_from_dir (JObj d) p = Raise AttributeError ->
    validates p fix_ s (Raise AttributeError) s
      [MsgInvalidOrMissing p (dict_get d target)]
| V_uninferable text d :
    readable_text s p = Some text -> loads text = Some (JObj d) ->
    in_VALID_DIRECTIONS (dict_get d target) = Ret false ->
    fix_ = true ->
    infer_direction_from_dir (JObj d) p = Ret None ->
    validates p fix_ s (Ret false) s
      [MsgInvalidOrMissing p (dict_get d target); MsgCouldNotInfer]
| V_write_failed text d g :
    s !! p = Some (File text true false) -> loads text = Some (JObj d) ->
    in_VALID_DIRECTIONS (dict_get d target) = Ret false ->
    fix_ = true ->
    infer_direction_from_dir (JObj d) p = Ret (Some g) ->
    validates p fix_ s (Raise OSError) s
      [MsgInvalidOrMissing p (dict_get d target)]
| V_fixed text d g :
    s !! p = Some (File text true true) -> loads text = Some (JObj d) ->
    in_VALID_DIRECTIONS (dict_get d target) = Ret false ->
    fix_ = true ->
    infer_direction_from_dir (JObj d) p = Ret (Some g) ->
    g ∈ VALID_DIRECTIONS ->
    validates p fix_ s (Ret true)
      (<[p := File (dumps (JObj (dict_set d target (JStr g)))) true true]> s)
      [MsgInvalidOrMissing p (dict_get d target); MsgFixed (JStr g)].

(** The value of the target field of the file at [p], if the file holds a
    JSON object that has the key. *)
Definition target_field (s : fs) (p : path) : option json :=
  match readable_text s p with
  | Some text =>
      match loads text with
      | Some (JObj d) => dict_lookup target d
      | _ => None
      end
  | None => None
  end.

(** [settled p e]: with entry [e] at [p], validation with fixing enabled
    returns and writes nothing. *)
Definition settled (p : path) (e : option entry) : Prop :=
  forall s, s !! p = e ->
    exists b out, validate_json p true s = (Ret b, s, out).

(** The file at [p] can be read, holds a JSON object, and the value of its
    target field is one of the six directions. *)
Definition has_valid_field (s : fs) (p : path) : bool :=
  match target_field s p with
  | Some (JStr g) => bool_decide (g ∈ VALID_DIRECTIONS)
  | _ => false
  end.

End Notions.

(** ** MiniJson: a reference implementation of the [json] interface

    A recursive-descent reader and an [indent=2] writer in the format of
    CPython's [json] module, for documents whose numbers are integers,
    zeros, infinities or NaN and whose strings hold one-byte characters.
    As [json.loads] does, the reader takes the constants [NaN], [Infinity]
    and [-Infinity], and reads a decimal literal too large for a double as
    an infinity.  It rejects what it cannot represent (the other literals
    with a fraction or an exponent, escapes above U+00FF). *)

Module MiniJson.

Definition dquote : ascii := "034"%char.
Definition backslash : ascii := "\"%char.
Definition newline : ascii := "010"%char.

Definition is_ws (c : ascii) : bool :=
  match c with
  | " "%char | "009"%char | "010"%char | "013"%char => true
  | _ => false
  end.

Fixpoint skip_ws (s : string) : string :=
  match s with
  | EmptyString => EmptyString
  | String c s' => if is_ws c then skip_ws s' else s
  end.

(** *** Strings *)

Definition hex_digit (n : N) : ascii :=
  if (n <? 10)%N then ascii_of_N (48 + n) else ascii_of_N (87 + n).

Definition hex_value (c : ascii) : option N :=
  let n := N_of_ascii c in
  if (48 <=? n)%N && (n <=? 57)%N then Some (n - 48)%N
  else if (97 <=? n)%N && (n <=? 102)%N then Some (n - 87)%N
  else if (65 <=? n)%N && (n <=? 70)%N then Some (n - 55)%N
  else None.

(** The escape CPython writes for one character with [ensure_ascii]. *)
Definition escape_char (c : ascii) : string :=
  let n := N_of_ascii c in
  if Ascii.eqb c dquote then String backslash (String dquote EmptyString)
  else if Ascii.eqb c backslash then String backslash (String backslash EmptyString)
  else if (n =? 8)%N then String backslash "b"
  else if (n =? 12)%N then String backslash "f"
  else if (n =? 10)%N then String backslash "n"
  else if (n =? 13)%N then String backslash "r"
  else if (n =? 9)%N then String backslash "t"
  else if (32 <=? n)%N && (n <=? 126)%N then String c EmptyString
  else String backslash
         (String "u" (String "0" (String "0"
            (String (hex_digit (n / 16)) (String (hex_digit (n mod 16)) EmptyString))))).

Fixpoint escape (s : string) : string :=
  match s with
  | EmptyString => EmptyString
  | String c s' => escape_char c +:+ escape s'
  end.

Definition encode_str (s : string) : string :=
  String dquote (escape s +:+ String dquote EmptyString).

Definition unescape_simple (e : ascii) : option ascii :=
  if Ascii.eqb e dquote then Some dquote
  else if Ascii.eqb e backslash then Some backslash
  else match e with
       | "/"%char => Some "/"%char
       | "b"%char => Some "008"%char
       | "f"%char => Some "012"%char
       | "n"%char => Some "010"%char
       | "r"%char => Some "013"%char
       | "t"%char => Some "009"%char
       | _ => None
       end.

Definition hex4 (h1 h2 h3 h4 : ascii) : option ascii :=
  match hex_value h1, hex_value h2, hex_value h3, hex_value h4 with
  | Some a, Some b, Some c, Some d =>
      if (a =? 0)%N && (b =? 0)%N then Some (ascii_of_N (16 * c + d)) else None
  | _, _, _, _ => None
  end.

Definition cons_char (c : ascii) (r : option (string * string))
  : option (string * string) :=
  match r with
  | Some (v, rest) => Some (String c v, rest)
  | None => None
  end.

(** The characters of a string literal after its opening quote, up to and
    including the closing quote. *)
Fixpoint parse_str_body (s : string) : option (string * string) :=
  match s with
  | EmptyString => None
  | String c r =>
      if Ascii.eqb c dquote then Some (EmptyString, r)
      else if Ascii.eqb c backslash then
        match r with
        | EmptyString => None
        | String e r1 =>
            match unescape_simple e with
            | Some x => cons_char x (parse_str_body r1)
            | None =>
                if Ascii.eqb e "u" then
                  match r1 with
                  | String h1 (String h2 (String h3 (String h4 r2))) =>
                      match hex4 h1 h2 h3 h4 with
                      | Some x => cons_char x (parse_str_body r2)
                      | None => None
                      end
                  | _ => None
                  end
                else None
            end
        end
      else if (N_of_ascii c <? 32)%N then None
      else cons_char c (parse_str_body r)
  end.

(** *** Integers *)

Fixpoint print_uint (d : Decimal.uint) : string :=
  match d with
  | Decimal.Nil => EmptyString
  | Decimal.D0 d' => String "0" (print_uint d')
  | Decimal.D1 d' => String "1" (print_uint d')
  | Decimal.D2 d' => String "2" (print_uint d')
  | Decimal.D3 d' => String "3" (print_uint d')
  | Decimal.D4 d' => String "4" (print_uint d')
  | Decimal.D5 d' => String "5" (print_uint d')
  | Decimal.D6 d' => String "6" (print_uint d')
  | Decimal.D7 d' => String "7" (print_uint d')
  | Decimal.D8 d' => String "8" (print_uint d')
  | Decimal.D9 d' => String "9" (print_uint d')
  end.

Definition print_int (z : Z) : string :=
  if (z <? 0)%Z then String "-" (print_uint (N.to_uint (Z.abs_N z)))
  else print_uint (N.to_uint (Z.abs_N z)).

Definition digit_of (c : ascii) : option (Decimal.uint -> Decimal.uint) :=
  match c with
  | "0"%char => Some Decimal.D0
  | "1"%char => Some Decimal.D1
  | "2"%char => Some Decimal.D2
  | "3"%char => Some Decimal.D3
  | "4"%char => Some Decimal.D4
  | "5"%char => Some Decimal.D5
  | "6"%char => Some Decimal.D6
  | "7"%char => Some Decimal.D7
  | "8"%char => Some Decimal.D8
  | "9"%char => Some Decimal.D9
  | _ => None
  end.

(** The longest run of digits in front of [s]. *)
Fixpoint parse_digits (s : string) : Decimal.uint * string :=
  match s with
  | EmptyString => (Decimal.Nil, EmptyString)
  | String c r =>
      match digit_of c with
      | Some mk => let '(d, r') := parse_digits r in (mk d, r')
      | None => (Decimal.Nil, s)
      end
  end.

Definition is_float_mark (c : ascii) : bool :=
  match c with
  | "."%char | "e"%char | "E"%char => true
  | _ => false
  end.

Definition starts_float (s : string) : bool :=
  match s with
  | EmptyString => false
  | String c _ => is_float_mark c
  end.

(** Decimal literals at or above this value are read as infinity: it is
    half way between the largest finite double and [2^1024]. *)
Definition overflow_threshold : N := (2 ^ 1024 - 2 ^ 970)%N.

(** The float denoted by the digits [m] scaled by [10^e], when it is a
    zero or rounds to infinity; other floats are not represented. *)
Definition classify_float (neg : bool) (m : N) (e : Z) : option spec_float :=
  if (m =? 0)%N then Some (S754_zero neg)
  else if (if (0 <=? e)%Z
           then (overflow_threshold <=? m * 10 ^ Z.to_N e)%N
           else (overflow_threshold * 10 ^ Z.to_N (- e) <=? m)%N)
       then Some (S754_infinity neg)
       else None.

(** An optional exponent part: [e] or [E], an optional sign, digits. *)
Definition parse_exponent (s : string) : option (Z * string) :=
  match s with
  | EmptyString => Some (0%Z, EmptyString)
  | String c r =>
      if Ascii.eqb c "e" || Ascii.eqb c "E" then
        let '(minus, r1) :=
          match r with
          | String "-" r' => (true, r')
          | String "+" r' => (false, r')
          | _ => (false, r)
          end in
        let '(d, r2) := parse_digits r1 in
        match d with
        | Decimal.Nil => None
        | _ => Some (if minus : bool then (- Z.of_N (N.of_uint d))%Z
                     else Z.of_N (N.of_uint d), r2)
        end
      else Some (0%Z, s)
  end.

(** What follows the integer digits [d] of a float literal: an optional
    fraction, an optional exponent. *)
Definition parse_float_tail (neg : bool) (d : Decimal.uint) (r : string)
  : option (json * string) :=
  let frac :=
    match r with
    | String "." r1 =>
        let '(fd, r2) := parse_digits r1 in
        match fd with
        | Decimal.Nil => None
        | _ => Some (fd, r2)
        end
    | _ => Some (Decimal.Nil, r)
    end in
  match frac with
  | None => None
  | Some (fd, r2) =>
      match parse_exponent r2 with
      | None => None
      | Some (ex, r3) =>
          match classify_float neg (N.of_uint (Decimal.app d fd))
                  (ex - Z.of_nat (Decimal.nb_digits fd)) with
          | Some f => Some (JFloat f, r3)
          | None => None
          end
      end
  end.

(** A number literal: an optional sign, then digits without a leading zero
    unless the integer part is zero; an integer unless a fraction or an
    exponent follows. *)
Definition parse_number (s : string) : option (json * string) :=
  let '(neg, s1) :=
    match s with
    | String "-" r => (true, r)
    | _ => (false, s)
    end in
  let '(d, r) := parse_digits s1 in
  if Decimal.uint_beq (Decimal.unorm d) d
  then if starts_float r then parse_float_tail neg d r
       else Some (JInt (if neg : bool then - Z.of_N (N.of_uint d)
                        else Z.of_N (N.of_uint d)), r)
  else None.

(** *** Floats

    Written in exact positional notation (CPython writes the shortest
    digits that read back to the same float).  The reader produces zeros,
    infinities and NaN only, which both write alike. *)

Fixpoint zeros (n : nat) : string :=
  match n with
  | O => EmptyString
  | S n' => String "0" (zeros n')
  end.

Definition print_scaled (n : N) (k : nat) : string :=
  let ds := print_uint (N.to_uint n) in
  let len := String.length ds in
  if (len <=? k)%nat then "0." +:+ zeros (k - len) +:+ ds
  else substring 0 (len - k) ds +:+ "." +:+ substring (len - k) k ds.

Definition print_float (f : spec_float) : string :=
  match f with
  | S754_zero s => if s then "-0.0" else "0.0"
  | S754_infinity s => if s then "-Infinity" else "Infinity"
  | S754_nan => "NaN"
  | S754_finite s m e =>
      (if s then "-" else "") +:+
      (if (0 <=? e)%Z
       then print_uint (N.to_uint (N.pos m * 2 ^ Z.to_N e)) +:+ ".0"
       else print_scaled (N.pos m * 5 ^ Z.to_N (- e)) (Z.to_nat (- e)))
  end.

(** *** Documents *)

Fixpoint spaces (n : nat) : string :=
  match n with
  | O => EmptyString
  | S n' => String " " (spaces n')
  end.

Definition newline_indent (lvl : nat) : string :=
  String newline (spaces (2 * lvl)).

(** The items of a non-empty array, each on a line of its own. *)
Fixpoint print_elems (pr : json -> string) (nl : string) (l : list json)
  : string :=
  match l with
  | [] => EmptyString
  | [x] => nl +:+ pr x
  | x :: l' => nl +:+ pr x +:+ "," +:+ print_elems pr nl l'
  end.

Fixpoint print_membs (pr : json -> string) (nl : string)
  (l : list (string * json)) : string :=
  match l with
  | [] => EmptyString
  | [(k, x)] => nl +:+ encode_str k +:+ ": " +:+ pr x
  | (k, x) :: l' =>
      nl +:+ encode_str k +:+ ": " +:+ pr x +:+ "," +:+ print_membs pr nl l'
  end.

(** [json.dumps(v, indent=2)] at nesting depth [lvl]. *)
Fixpoint print_json (lvl : nat) (v : json) : string :=
  match v with
  | JNull => "null"
  | JBool true => "true"
  | JBool false => "false"
  | JInt z => print_int z
  | JFloat f => print_float f
  | JStr s => encode_str s
  | JArr [] => "[]"
  | JArr items =>
      "[" +:+ print_elems (print_json (S lvl)) (newline_indent (S lvl)) items
      +:+ newline_indent lvl +:+ "]"
  | JObj [] => "{}"
  | JObj members =>
      "{" +:+ print_membs (print_json (S lvl)) (newline_indent (S lvl)) members
      +:+ newline_indent lvl +:+ "}"
  end.

Definition option_cons {A} (x : A) (r : option (list A * string))
  : option (list A * string) :=
  match r with
  | Some (l, rest) => Some (x :: l, rest)
  | None => None
  end.

(** [strip_lit lit s] is what follows [lit] when [s] starts with it. *)
Fixpoint strip_lit (lit s : string) : option string :=
  match lit with
  | EmptyString => Some s
  | String a lit' =>
      match s with
      | EmptyString => None
      | String c s' => if Ascii.eqb a c then strip_lit lit' s' else None
      end
  end.

Definition parse_lit (lit : string) (v : json) (s : string)
  : option (json * string) :=
  match strip_lit lit s with
  | Some r => Some (v, r)
  | None => None
  end.

(** The reader.  [parse_value] reads one value after optional white space;
    [parse_elems] reads the elements of a non-empty array up to its closing
    bracket; [parse_members] reads the members of a non-empty object up to
    its closing brace, assigning them to the dictionary in order.  [fuel]
    bounds the number of nested calls. *)
Fixpoint parse_value (fuel : nat) (s : string) {struct fuel}
  : option (json * string) :=
  match fuel with
  | O => None
  | S f =>
      match skip_ws s with
      | EmptyString => None
      | String c r =>
          if Ascii.eqb c "[" then
            match strip_lit "]" (skip_ws r) with
            | Some r' => Some (JArr [], r')
            | None =>
                match parse_elems f r with
                | Some (l, r') => Some (JArr l, r')
                | None => None
                end
            end
          else if Ascii.eqb c "{" then
            match strip_lit "}" (skip_ws r) with
            | Some r' => Some (JObj [], r')
            | None =>
                match parse_members f [] r with
                | Some (d, r') => Some (JObj d, r')
                | None => None
                end
            end
          else if Ascii.eqb c dquote then
            match parse_str_body r with
            | Some (v, r') => Some (JStr v, r')
            | None => None
            end
          else if Ascii.eqb c "n" then parse_lit "ull" JNull r
          else if Ascii.eqb c "t" then parse_lit "rue" (JBool true) r
          else if Ascii.eqb c "f" then parse_lit "alse" (JBool false) r
          else if Ascii.eqb c "N" then parse_lit "aN" (JFloat S754_nan) r
          else if Ascii.eqb c "I" then
            parse_lit "nfinity" (JFloat (S754_infinity false)) r
          else
            match strip_lit "-Infinity" (String c r) with
            | Some r' => Some (JFloat (S754_infinity true), r')
            | None => parse_number (String c r)
            end
      end
  end
with parse_elems (fuel : nat) (s : string) {struct fuel}
  : option (list json * string) :=
  match fuel with
  | O => None
  | S f =>
      match parse_value f s with
      | None => None
      | Some (v, r) =>
          match skip_ws r with
          | EmptyString => None
          | String c r' =>
              if Ascii.eqb c "," then option_cons v (parse_elems f r')
              else if Ascii.eqb c "]" then Some ([v], r')
              else None
          end
      end
  end
with parse_members (fuel : nat) (acc : dict) (s : string) {struct fuel}
  : option (dict * string) :=
  match fuel with
  | O => None
  | S f =>
      match skip_ws s with
      | EmptyString => None
      | String q r =>
          if Ascii.eqb q dquote then
            match parse_str_body r with
            | None => None
            | Some (k, r1) =>
                match skip_ws r1 with
                | EmptyString => None
                | String c r2 =>
                    if Ascii.eqb c ":" then
                      match parse_value f r2 with
                      | None => None
                      | Some (v, r3) =>
                          match skip_ws r3 with
                          | EmptyString => None
                          | String c' r4 =>
                              if Ascii.eqb c' "," then
                                parse_members f (dict_set acc k v) r4
                              else if Ascii.eqb c' "}" then
                                Some (dict_set acc k v, r4)
                              else None
                          end
                      end
                    else None
                end
            end
          else None
      end
  end.

(** [json.loads]: one value, then nothing but white space. *)
Definition mini_loads (text : string) : option json :=
  match parse_value (S (String.length text)) text with
  | Some (v, r) =>
      match skip_ws r with
      | EmptyString => Some v
      | _ => None
      end
  | None => None
  end.

Definition mini_dumps (v : json) : string := print_json 0 v.


(** *** Notions used in the proofs about the reader *)

Definition is_digit (c : ascii) : bool :=
  match digit_of c with
  | Some _ => true
  | None => false
  end.

(** What may follow an integer literal without changing how it reads. *)
Definition follow_ok (s : string) : bool :=
  match s with
  | EmptyString => true
  | String c _ => negb (is_digit c) && negb (is_float_mark c)
  end.

(** No finite float other than zero, and no key twice in an object. *)
Fixpoint ok (v : json) : Prop :=
  match v with
  | JFloat (S754_finite _ _ _) => False
  | JArr l =>
      (fix all (l : list json) : Prop :=
         match l with
         | [] => True
         | x :: l' => ok x /\ all l'
         end) l
  | JObj d =>
      NoDup (map fst d) /\
      (fix all (d : list (string * json)) : Prop :=
         match d with
         | [] => True
         | (_, x) :: d' => ok x /\ all d'
         end) d
  | _ => True
  end.

Fixpoint fuel_of (v : json) : nat :=
  match v with
  | JArr l =>
      S ((fix go (l : list json) : nat :=
            match l with
            | [] => 0
            | x :: l' => S (fuel_of x + go l')
            end) l)
  | JObj d =>
      S ((fix go (d : list (string * json)) : nat :=
            match d with
            | [] => 0
            | (_, x) :: d' => S (fuel_of x + go d')
            end) d)
  | _ => 1
  end.

Fixpoint fuel_elems (l : list json) : nat :=
  match l with
  | [] => 0
  | x :: l' => S (fuel_of x + fuel_elems l')
  end.

Fixpoint fuel_membs (d : list (string * json)) : nat :=
  match d with
  | [] => 0
  | (_, x) :: d' => S (fuel_of x + fuel_membs d')
  end.

(** The first character of a written value: not white space, not a
    closing bracket. *)
Definition value_start (c : ascii) : bool :=
  negb (is_ws c) && negb (Ascii.eqb c "]") && negb (Ascii.eqb c "}").

(** The statement proved by induction on the value. *)
Definition reads_back (v : json) : Prop :=
  ok v ->
  forall lvl fuel rest,
    fuel_of v <= fuel -> follow_ok rest = true ->
    parse_value fuel (print_json lvl v +:+ rest) = Some (v, rest).

(** *** RFC 8259

    [json.loads] reads more than RFC 8259 allows: the constants [NaN],
    [Infinity] and [-Infinity], which [json.dumps] writes for the floats
    that are no numbers of the RFC.  [strict_scan] walks a text and refuses
    a letter [N] or [I] outside a string literal (no token of the RFC holds
    one) and a control character inside one; [strict_json] holds of the
    texts the reader takes that pass it. *)
Fixpoint strict_scan (in_str : bool) (s : string) {struct s} : bool :=
  match s with
  | EmptyString => true
  | String c r =>
      if in_str then
        if Ascii.eqb c backslash then
          match r with
          | EmptyString => false
          | String _ r' => strict_scan true r'
          end
        else if Ascii.eqb c dquote then strict_scan false r
        else if (N_of_ascii c <? 32)%N then false
        else strict_scan true r
      else if Ascii.eqb c dquote then strict_scan true r
      else if Ascii.eqb c "N" || Ascii.eqb c "I" then false
      else strict_scan false r
  end.

Definition strict_json (text : string) : bool :=
  match mini_loads text with
  | Some _ => strict_scan false text
  | None => false
  end.

(** No NaN and no infinity anywhere in the document. *)
Fixpoint all_finite (v : json) : bool :=
  match v with
  | JFloat (S754_infinity _) => false
  | JFloat S754_nan => false
  | JArr l => forallb all_finite l
  | JObj d => forallb (fun kv => all_finite (snd kv)) d
  | _ => true
  end.

(** A piece of text that leaves the scan outside string literals. *)
Definition scan_neutral (t : string) : Prop :=
  forall rest, strict_scan false (t +:+ rest) = strict_scan false rest.

End MiniJson.

(** ** Concrete documents and trees *)

Definition quoted (s : string) : string :=
  String MiniJson.dquote (s +:+ String MiniJson.dquote EmptyString).

(** [{"dir": "PA"}] *)
Definition doc_dir_pa : string :=
  "{" +:+ quoted "dir" +:+ ": " +:+ quoted "PA" +:+ "}".

(** [{"PhaseEncodingDirection": []}] *)
Definition doc_ped_array : string :=
  "{" +:+ quoted "PhaseEncodingDirection" +:+ ": []}".

(** [{"dir": 5}] *)
Definition doc_dir_number : string := "{" +:+ quoted "dir" +:+ ": 5}".

(** [{"PhaseEncodingDirection": "j"}] *)
Definition doc_valid : string :=
  "{" +:+ quoted "PhaseEncodingDirection" +:+ ": " +:+ quoted "j" +:+ "}".

(** [{"PhaseEncodingDirection": "x"}] *)
Definition doc_invalid_x : string :=
  "{" +:+ quoted "PhaseEncodingDirection" +:+ ": " +:+ quoted "x" +:+ "}".

Definition doc_malformed : string := "{not json".

(** What [doc_dir_pa] becomes when fixed. *)
Definition meta_fixed : json :=
  JObj [("dir", JStr "PA"); ("PhaseEncodingDirection", JStr "j-")].

(** [{"dir": "PA", "x": 1e400}]: a number of RFC 8259 beyond the range of
    a double. *)
Definition doc_overflow : string :=
  "{" +:+ quoted "dir" +:+ ": " +:+ quoted "PA" +:+ ", " +:+ quoted "x"
  +:+ ": 1e400}".

Definition meta_overflow : json :=
  JObj [("dir", JStr "PA"); ("x", JFloat (S754_infinity false))].

Definition meta_overflow_fixed : json :=
  JObj [("dir", JStr "PA"); ("x", JFloat (S754_infinity false));
        ("PhaseEncodingDirection", JStr "j-")].

Definition file_pa : path := ["data"; "sub-01"; "dwi"; "sub-01_dir-PA_dwi.json"].
Definition file_b : path := ["data"; "sub-02"; "ses-01"; "dwi"; "sub-02_dwi.json"].

(** A fixable file and a malformed one. *)
Definition tree_fixable : fs :=
  <[file_pa := File doc_dir_pa true true]>
    (<[file_b := File doc_malformed true true]> ∅).

Definition tree_fixed : fs :=
  <[file_pa := File (MiniJson.mini_dumps meta_fixed) true true]> tree_fixable.

(** A fixable file that holds a number too large for a double. *)
Definition tree_overflow : fs := <[file_pa := File doc_overflow true true]> ∅.

(** A file whose target field is an array, and a valid one. *)
Definition tree_array : fs :=
  <[file_pa := File doc_ped_array true true]>
    (<[file_b := File doc_valid true true]> ∅).

(** A file with an invalid direction and nothing to infer one from. *)
Definition tree_hopeless : fs := <[file_b := File doc_invalid_x true true]> ∅.

(** A file whose [dir] is a number. *)
Definition tree_number : fs := <[file_pa := File doc_dir_number true true]> ∅.

(** A fixable file that cannot be written, and a valid one. *)
Definition tree_read_only : fs :=
  <[file_pa := File doc_dir_pa true false]>
    (<[file_b := File doc_valid true true]> ∅).

(** * Properties of MiniJson *)

Module MiniJsonFacts.
Import MiniJson.

Lemma append_assoc (a b c : string) : (a +:+ b) +:+ c = a +:+ (b +:+ c).
Proof. induction a as [|x a IH]; simpl; [reflexivity | now rewrite IH]. Qed.

Lemma length_append (a b : string) :
  String.length (a +:+ b) = (String.length a + String.length b)%nat.
Proof. induction a as [|x a IH]; simpl; [reflexivity | now rewrite IH]. Qed.

Lemma skip_ws_spaces (n : nat) (s : string) :
  skip_ws (spaces n +:+ s) = skip_ws s.
Proof. induction n as [|n IH]; simpl; [reflexivity | exact IH]. Qed.

Lemma skip_ws_newline_indent (lvl : nat) (s : string) :
  skip_ws (newline_indent lvl +:+ s) = skip_ws s.
Proof. unfold newline_indent. simpl. apply skip_ws_spaces. Qed.

Lemma skip_ws_head (c : ascii) (r : string) :
  is_ws c = false -> skip_ws (String c r) = String c r.
Proof. intros H. simpl. now rewrite H. Qed.

(** One character written by [escape_char] is read back as itself. *)
Lemma parse_escape_char (c : ascii) (rest : string) :
  parse_str_body (escape_char c +:+ rest) = cons_char c (parse_str_body rest).
Proof.
  destruct c as [[] [] [] [] [] [] [] []]; reflexivity.
Qed.

Lemma parse_escape (s rest : string) :
  parse_str_body (escape s +:+ String dquote rest) = Some (s, rest).
Proof.
  induction s as [|c s IH]; cbn [escape].
  - reflexivity.
  - rewrite append_assoc, parse_escape_char, IH. reflexivity.
Qed.

Lemma parse_encode_str (s rest : string) :
  exists r, encode_str s +:+ rest = String dquote r
            /\ parse_str_body r = Some (s, rest).
Proof.
  exists (escape s +:+ String dquote rest). split; [| apply parse_escape].
  unfold encode_str. change (String dquote ?a +:+ ?b) with (String dquote (a +:+ b)).
  now rewrite append_assoc.
Qed.

Lemma parse_digits_stop (rest : string) :
  follow_ok rest = true -> parse_digits rest = (Decimal.Nil, rest).
Proof.
  destruct rest as [|c r]; [reflexivity |].
  unfold follow_ok, is_digit. simpl.
  destruct (digit_of c); [discriminate | reflexivity].
Qed.

Lemma parse_digits_print (d : Decimal.uint) (rest : string) :
  follow_ok rest = true -> parse_digits (print_uint d +:+ rest) = (d, rest).
Proof.
  intros Hrest.
  induction d as [|d IH|d IH|d IH|d IH|d IH|d IH|d IH|d IH|d IH|d IH];
    simpl; [now apply parse_digits_stop | now rewrite IH ..].
Qed.

Lemma unorm_to_uint (n : N) : Decimal.unorm (N.to_uint n) = N.to_uint n.
Proof.
  rewrite <- DecimalN.Unsigned.to_of, DecimalN.Unsigned.of_to. reflexivity.
Qed.

Lemma follow_ok_not_float (rest : string) :
  follow_ok rest = true -> starts_float rest = false.
Proof.
  destruct rest as [|c r]; [reflexivity |]. simpl.
  intros H. apply andb_true_iff in H as [_ H]. now apply negb_true_iff in H.
Qed.

(** The digits of a natural number: a digit first, never a sign. *)
Lemma print_uint_head (n : N) :
  exists c r, print_uint (N.to_uint n) = String c r /\ is_digit c = true.
Proof.
  pose proof (unorm_to_uint n) as Hn.
  destruct (N.to_uint n) as [|d|d|d|d|d|d|d|d|d|d]; simpl;
    [discriminate Hn | eauto ..].
Qed.

Lemma parse_number_print (z : Z) (rest : string) :
  follow_ok rest = true ->
  parse_number (print_int z +:+ rest) = Some (JInt z, rest).
Proof.
  intros Hrest. unfold print_int, parse_number.
  assert (Hbeq : Decimal.uint_beq (Decimal.unorm (N.to_uint (Z.abs_N z)))
                   (N.to_uint (Z.abs_N z)) = true)
    by (apply Decimal.internal_uint_dec_lb, unorm_to_uint).
  destruct (z <? 0)%Z eqn:Hz.
  - simpl. rewrite (parse_digits_print _ _ Hrest), Hbeq,
      (follow_ok_not_float _ Hrest). simpl.
    rewrite DecimalN.Unsigned.of_to, N2Z.inj_abs_N.
    apply Z.ltb_lt in Hz. do 2 f_equal. f_equal. lia.
  - destruct (print_uint_head (Z.abs_N z)) as (c & r & Hc & Hd).
    assert (Hsplit :
      match print_uint (N.to_uint (Z.abs_N z)) +:+ rest with
      | String "-" r0 => (true, r0)
      | _ => (false, print_uint (N.to_uint (Z.abs_N z)) +:+ rest)
      end = (false, print_uint (N.to_uint (Z.abs_N z)) +:+ rest)).
    { rewrite Hc. simpl.
      destruct c as [[] [] [] [] [] [] [] []]; try discriminate Hd; reflexivity. }
    rewrite Hsplit, (parse_digits_print _ _ Hrest), Hbeq,
      (follow_ok_not_float _ Hrest). simpl.
    rewrite DecimalN.Unsigned.of_to, N2Z.inj_abs_N.
    apply Z.ltb_ge in Hz. do 2 f_equal. f_equal. lia.
Qed.

(** *** What the reader can produce, and the fuel a value needs *)

Lemma fuel_of_arr (l : list json) : fuel_of (JArr l) = S (fuel_elems l).
Proof. reflexivity. Qed.

Lemma fuel_of_obj (d : dict) : fuel_of (JObj d) = S (fuel_membs d).
Proof. reflexivity. Qed.

Lemma ok_arr (l : list json) : ok (JArr l) <-> Forall ok l.
Proof.
  induction l as [|x l IH].
  - split; [constructor | exact (fun _ => I)].
  - split.
    + intros [Hx Hl]. constructor; [exact Hx | now apply IH].
    + intros H. inversion H; subst. split; [assumption | now apply IH].
Qed.

Lemma ok_obj (d : dict) :
  ok (JObj d) <-> NoDup (map fst d) /\ Forall (fun kv => ok (snd kv)) d.
Proof.
  assert (Hall : (fix all (d : list (string * json)) : Prop :=
                    match d with
                    | [] => True
                    | (_, x) :: d' => ok x /\ all d'
                    end) d <-> Forall (fun kv => ok (snd kv)) d).
  { induction d as [|[k x] d IH].
    - split; [constructor | exact (fun _ => I)].
    - split.
      + intros [Hx Hl]. constructor; [exact Hx | now apply IH].
      + intros H. inversion H; subst. split; [assumption | now apply IH]. }
  split; intros [Hnd H]; (split; [exact Hnd | now apply Hall]).
Qed.

(** *** Reading back what was written *)

Lemma skip_ws_idem (s : string) : skip_ws (skip_ws s) = skip_ws s.
Proof.
  induction s as [|c s IH]; simpl; [reflexivity |].
  destruct (is_ws c) eqn:E; [exact IH | simpl; now rewrite E].
Qed.

Lemma parse_value_skip (f : nat) (s : string) :
  parse_value f (skip_ws s) = parse_value f s.
Proof. destruct f; [reflexivity |]. cbn [parse_value]. now rewrite skip_ws_idem. Qed.

Lemma parse_value_indent (f lvl : nat) (s : string) :
  parse_value f (newline_indent lvl +:+ s) = parse_value f s.
Proof.
  now rewrite <- parse_value_skip, skip_ws_newline_indent, parse_value_skip.
Qed.

Lemma parse_value_arr (f : nat) (r : string) :
  parse_value (S f) (String "[" r) =
  match strip_lit "]" (skip_ws r) with
  | Some r' => Some (JArr [], r')
  | None =>
      match parse_elems f r with
      | Some (l, r') => Some (JArr l, r')
      | None => None
      end
  end.
Proof. reflexivity. Qed.

Lemma parse_value_obj (f : nat) (r : string) :
  parse_value (S f) (String "{" r) =
  match strip_lit "}" (skip_ws r) with
  | Some r' => Some (JObj [], r')
  | None =>
      match parse_members f [] r with
      | Some (d, r') => Some (JObj d, r')
      | None => None
      end
  end.
Proof. reflexivity. Qed.

Lemma parse_value_str (f : nat) (r : string) :
  parse_value (S f) (String dquote r) =
  match parse_str_body r with
  | Some (v, r') => Some (JStr v, r')
  | None => None
  end.
Proof. reflexivity. Qed.

Lemma parse_value_num (f : nat) (c : ascii) (r : string) :
  is_digit c || Ascii.eqb c "-" = true ->
  strip_lit "-Infinity" (String c r) = None ->
  parse_value (S f) (String c r) = parse_number (String c r).
Proof.
  intros H Hinf.
  destruct c as [[] [] [] [] [] [] [] []]; try discriminate H;
    try reflexivity.
  change (match strip_lit "-Infinity" (String "-" r) with
          | Some r' => Some (JFloat (S754_infinity true), r')
          | None => parse_number (String "-" r)
          end = parse_number (String "-" r)).
  now rewrite Hinf.
Qed.

(** A digit follows the sign of a written integer. *)
Lemma print_int_not_infinity (z : Z) (rest : string) :
  strip_lit "-Infinity" (print_int z +:+ rest) = None.
Proof.
  unfold print_int.
  destruct (print_uint_head (Z.abs_N z)) as (c & r & Hc & Hd).
  rewrite Hc. destruct (z <? 0)%Z.
  - destruct c as [[] [] [] [] [] [] [] []]; try discriminate Hd; reflexivity.
  - destruct c as [[] [] [] [] [] [] [] []]; try discriminate Hd; reflexivity.
Qed.

Lemma parse_exponent_stop (rest : string) :
  follow_ok rest = true -> parse_exponent rest = Some (0%Z, rest).
Proof.
  destruct rest as [|c r]; [reflexivity |]. intros H.
  destruct c as [[] [] [] [] [] [] [] []]; try discriminate H; reflexivity.
Qed.

(** The two zeros are read back. *)
Lemma parse_number_zero (neg : bool) (rest : string) :
  follow_ok rest = true ->
  parse_number (print_float (S754_zero neg) +:+ rest)
  = Some (JFloat (S754_zero neg), rest).
Proof.
  intros Hrest.
  assert (Htail : parse_float_tail neg (Decimal.D0 Decimal.Nil)
                    (String "." (String "0" rest))
                  = Some (JFloat (S754_zero neg), rest)).
  { unfold parse_float_tail. cbn [parse_digits digit_of].
    rewrite (parse_digits_stop _ Hrest). cbv beta iota.
    rewrite (parse_exponent_stop _ Hrest). reflexivity. }
  destruct neg; unfold parse_number; simpl print_float.
  - change (parse_digits ("0.0" +:+ rest))
      with (Decimal.D0 Decimal.Nil, String "." (String "0" rest)).
    exact Htail.
  - change (parse_digits ("0.0" +:+ rest))
      with (Decimal.D0 Decimal.Nil, String "." (String "0" rest)).
    exact Htail.
Qed.

(** What the reader takes from a number literal is admitted by [ok]. *)
Lemma parse_number_ok (s : string) (v : json) (r : string) :
  parse_number s = Some (v, r) -> ok v.
Proof.
  unfold parse_number, parse_float_tail, classify_float. intros H.
  repeat (case_match; try discriminate); simplify_eq; exact I.
Qed.

Lemma print_int_head (z : Z) :
  exists c r, print_int z = String c r /\ is_digit c || Ascii.eqb c "-" = true.
Proof.
  unfold print_int. destruct (z <? 0)%Z.
  - eexists _, _. split; reflexivity.
  - destruct (print_uint_head (Z.abs_N z)) as (c & r & Hc & Hd).
    exists c, r. split; [exact Hc | now rewrite Hd].
Qed.

Lemma num_start_value_start (c : ascii) :
  is_digit c || Ascii.eqb c "-" = true -> value_start c = true.
Proof.
  intros H.
  destruct c as [[] [] [] [] [] [] [] []]; try discriminate H; reflexivity.
Qed.

Lemma print_json_head (lvl : nat) (v : json) :
  ok v -> exists c r, print_json lvl v = String c r /\ value_start c = true.
Proof.
  intros Hok. destruct v as [|[]|z|f|s|[|x l]|[|[k x] d]];
    try (eexists _, _; split; reflexivity).
  - destruct (print_int_head z) as (c & r & Hc & Hd).
    exists c, r. split; [exact Hc | now apply num_start_value_start].
  - destruct f as [[]|[]| |]; try destruct Hok;
      eexists _, _; split; reflexivity.
Qed.

Lemma value_start_skip (c : ascii) (r : string) :
  value_start c = true -> skip_ws (String c r) = String c r.
Proof.
  intros H. apply skip_ws_head.
  unfold value_start in H. destruct (is_ws c); [discriminate | reflexivity].
Qed.

Lemma value_start_not_close (c : ascii) (r : string) :
  value_start c = true ->
  strip_lit "]" (String c r) = None /\ strip_lit "}" (String c r) = None.
Proof.
  intros H.
  destruct c as [[] [] [] [] [] [] [] []]; try discriminate H; split; reflexivity.
Qed.

Lemma bracket_assoc (o c : ascii) (body nl rest : string) :
  (String o EmptyString +:+ body +:+ nl +:+ String c EmptyString) +:+ rest
  = String o (body +:+ nl +:+ String c rest).
Proof. simpl. now rewrite !append_assoc. Qed.

Lemma print_elems_cons2 pr nl (x y : json) (l : list json) :
  print_elems pr nl (x :: y :: l)
  = nl +:+ pr x +:+ "," +:+ print_elems pr nl (y :: l).
Proof. reflexivity. Qed.

Lemma print_membs_cons2 pr nl (k : string) (x : json) (m : string * json)
  (d : list (string * json)) :
  print_membs pr nl ((k, x) :: m :: d)
  = nl +:+ encode_str k +:+ ": " +:+ pr x +:+ "," +:+ print_membs pr nl (m :: d).
Proof. destruct m. reflexivity. Qed.

Lemma parse_elems_print (lvl k : nat) (l : list json) :
  l <> [] -> Forall reads_back l -> Forall ok l ->
  forall f rest,
    fuel_elems l <= f ->
    parse_elems f
      (print_elems (print_json lvl) (newline_indent lvl) l
       +:+ newline_indent k +:+ String "]" rest)
    = Some (l, rest).
Proof.
  induction l as [|x l IHl]; [congruence |]. intros _ HP Hok f rest Hf.
  inversion HP as [|? ? Hx HPl]; subst. inversion Hok as [|? ? Hokx Hokl]; subst.
  destruct f as [|f]; [simpl in Hf; lia |]. simpl in Hf.
  destruct l as [|y l'].
  - cbn [print_elems parse_elems]. rewrite append_assoc, parse_value_indent.
    erewrite Hx; [| assumption | lia | reflexivity].
    rewrite skip_ws_newline_indent. reflexivity.
  - rewrite print_elems_cons2, !append_assoc. cbn [parse_elems].
    rewrite parse_value_indent.
    erewrite Hx; [| assumption | lia | reflexivity].
    remember (print_elems _ _ (y :: l') +:+ _) as R eqn:HR.
    simpl. subst R.
    rewrite IHl; [reflexivity | discriminate | assumption | assumption |].
    simpl in *. lia.
Qed.

Lemma dict_set_fresh (d : dict) (k : string) (v : json) :
  k ∉ map fst d -> dict_set d k v = (d ++ [(k, v)])%list.
Proof.
  induction d as [|[k' v'] d IH]; simpl; intros H; [reflexivity |].
  apply not_elem_of_cons in H as [Hne H].
  destruct (String.eqb_spec k k') as [->|_]; [congruence |].
  now rewrite IH.
Qed.

Lemma parse_value_space (f : nat) (s : string) :
  parse_value f (String " " s) = parse_value f s.
Proof. rewrite <- parse_value_skip. simpl. apply parse_value_skip. Qed.

Lemma parse_members_S (f : nat) (acc : dict) (k : string) (r r1 : string) :
  parse_str_body r = Some (k, ": " +:+ r1) ->
  parse_members (S f) acc (String dquote r) =
  match parse_value f r1 with
  | None => None
  | Some (v, r3) =>
      match skip_ws r3 with
      | EmptyString => None
      | String c' r4 =>
          if Ascii.eqb c' "," then parse_members f (dict_set acc k v) r4
          else if Ascii.eqb c' "}" then Some (dict_set acc k v, r4)
          else None
      end
  end.
Proof.
  intros H. cbn [parse_members].
  change (skip_ws (String dquote r)) with (String dquote r).
  change (Ascii.eqb dquote dquote) with true. cbv iota. rewrite H.
  change (skip_ws (": " +:+ r1)) with (String ":" (String " " r1)).
  change (Ascii.eqb ":" ":") with true. cbv iota.
  now rewrite parse_value_space.
Qed.

Lemma parse_members_indent (f lvl : nat) (acc : dict) (s : string) :
  parse_members f acc (newline_indent lvl +:+ s) = parse_members f acc s.
Proof.
  destruct f; [reflexivity |]. cbn [parse_members].
  now rewrite skip_ws_newline_indent.
Qed.

Lemma parse_members_print (lvl k : nat) (d : list (string * json)) :
  d <> [] ->
  Forall (fun kv => reads_back (snd kv)) d ->
  Forall (fun kv => ok (snd kv)) d ->
  forall f acc rest,
    NoDup (map fst acc ++ map fst d)%list ->
    fuel_membs d <= f ->
    parse_members f acc
      (print_membs (print_json lvl) (newline_indent lvl) d
       +:+ newline_indent k +:+ String "}" rest)
    = Some ((acc ++ d)%list, rest).
Proof.
  induction d as [|[key x] d IHd]; [congruence |].
  intros _ HP Hok f acc rest Hnd Hf.
  inversion HP as [|? ? Hx HPd]; subst. inversion Hok as [|? ? Hokx Hokd]; subst.
  simpl in Hx, Hokx.
  destruct f as [|f]; [simpl in Hf; lia |]. simpl in Hf.
  assert (Hfresh : key ∉ map fst acc).
  { simpl in Hnd. apply NoDup_app in Hnd as (_ & Hdisj & _).
    intros Hin. apply (Hdisj key Hin). apply list_elem_of_here. }
  destruct d as [|m d'].
  - cbn [print_membs]. rewrite !append_assoc, parse_members_indent.
    destruct (parse_encode_str key
                (": " +:+ print_json lvl x +:+ newline_indent k +:+ String "}" rest))
      as (r & Hr & Hp).
    rewrite Hr. erewrite parse_members_S by exact Hp.
    erewrite Hx; [| assumption | lia | reflexivity].
    rewrite skip_ws_newline_indent. simpl.
    now rewrite dict_set_fresh.
  - rewrite print_membs_cons2, !append_assoc, parse_members_indent.
    remember (print_membs _ _ (m :: d') +:+ _) as R eqn:HR.
    destruct (parse_encode_str key (": " +:+ print_json lvl x +:+ "," +:+ R))
      as (r & Hr & Hp).
    rewrite Hr. erewrite parse_members_S by exact Hp.
    erewrite Hx; [| assumption | lia | reflexivity].
    simpl. subst R. rewrite dict_set_fresh by assumption.
    rewrite IHd; [| discriminate | assumption | assumption | | simpl in *; lia].
    + now rewrite <- app_assoc.
    + rewrite map_app, <- app_assoc. exact Hnd.
Qed.

Lemma print_elems_head pr nl (x : json) (l : list json) (t : string) :
  exists t', print_elems pr nl (x :: l) +:+ t = nl +:+ pr x +:+ t'.
Proof.
  destruct l as [|y l].
  - eexists. cbn [print_elems]. now rewrite append_assoc.
  - eexists. now rewrite print_elems_cons2, !append_assoc.
Qed.

Lemma print_membs_head pr nl (k : string) (x : json)
  (d : list (string * json)) (t : string) :
  exists t', print_membs pr nl ((k, x) :: d) +:+ t = nl +:+ encode_str k +:+ t'.
Proof.
  destruct d as [|m d].
  - eexists. cbn [print_membs]. now rewrite !append_assoc.
  - eexists. now rewrite print_membs_cons2, !append_assoc.
Qed.

Lemma parse_print (v : json) : reads_back v.
Proof.
  induction v as [|b|z|fl|s|l IH|d IH] using json_ind;
    intros Hok lvl fuel rest Hfuel Hrest;
    (destruct fuel as [|f]; [simpl in Hfuel; lia |]).
  - reflexivity.
  - destruct b; reflexivity.
  - destruct (print_int_head z) as (c & r & Hc & Hd).
    rewrite <- (parse_number_print z rest Hrest).
    pose proof (print_int_not_infinity z rest) as Hinf.
    cbn [print_json]. rewrite Hc in *. now apply parse_value_num.
  - cbn [print_json]. destruct fl as [neg|[]| |]; try destruct Hok;
      try reflexivity.
    rewrite <- (parse_number_zero neg rest Hrest).
    destruct neg; now apply parse_value_num.
  - cbn [print_json]. destruct (parse_encode_str s rest) as (r & Hr & Hp).
    now rewrite Hr, parse_value_str, Hp.
  - destruct l as [|x l]; [reflexivity |].
    change (print_json lvl (JArr (x :: l)))
      with ("[" +:+ print_elems (print_json (S lvl)) (newline_indent (S lvl)) (x :: l)
            +:+ newline_indent lvl +:+ "]").
    rewrite bracket_assoc, parse_value_arr.
    apply ok_arr in Hok.
    destruct (print_elems_head (print_json (S lvl)) (newline_indent (S lvl)) x l
                (newline_indent lvl +:+ String "]" rest)) as (t' & Ht).
    assert (Hx : ok x) by now inversion Hok.
    destruct (print_json_head (S lvl) x Hx) as (c & r & Hc & Hv).
    rewrite Ht at 1. rewrite skip_ws_newline_indent, Hc.
    change (String c r +:+ t') with (String c (r +:+ t')).
    rewrite (value_start_skip _ _ Hv).
    rewrite (proj1 (value_start_not_close c (r +:+ t') Hv)).
    rewrite parse_elems_print; [reflexivity | discriminate | assumption | assumption |].
    rewrite fuel_of_arr in Hfuel. lia.
  - destruct d as [|[k x] d]; [reflexivity |].
    change (print_json lvl (JObj ((k, x) :: d)))
      with ("{" +:+ print_membs (print_json (S lvl)) (newline_indent (S lvl)) ((k, x) :: d)
            +:+ newline_indent lvl +:+ "}").
    rewrite bracket_assoc, parse_value_obj.
    apply ok_obj in Hok. destruct Hok as [Hnd Hok].
    destruct (print_membs_head (print_json (S lvl)) (newline_indent (S lvl)) k x d
                (newline_indent lvl +:+ String "}" rest)) as (t' & Ht).
    rewrite Ht at 1. rewrite skip_ws_newline_indent.
    unfold encode_str at 1.
    change (String dquote ?a +:+ t') with (String dquote (a +:+ t')).
    simpl skip_ws at 1. simpl strip_lit at 1. cbv iota.
    rewrite parse_members_print;
      [reflexivity | discriminate | assumption | assumption | exact Hnd |].
    rewrite fuel_of_obj in Hfuel. lia.
Qed.

(** *** Everything the reader returns is representable *)

Lemma dict_set_keys (d : dict) (k : string) (v : json) :
  map fst (dict_set d k v)
  = if bool_decide (k ∈ map fst d) then map fst d else (map fst d ++ [k])%list.
Proof.
  induction d as [|[k' v'] d IH]; simpl; [reflexivity |].
  destruct (String.eqb_spec k k') as [->|Hne].
  - rewrite bool_decide_eq_true_2 by apply list_elem_of_here. reflexivity.
  - simpl. rewrite IH.
    destruct (bool_decide (k ∈ map fst d)) eqn:E.
    + apply bool_decide_eq_true_1 in E.
      rewrite bool_decide_eq_true_2 by now apply list_elem_of_further.
      reflexivity.
    + apply bool_decide_eq_false_1 in E.
      rewrite bool_decide_eq_false_2; [reflexivity |].
      intros Hin. apply elem_of_cons in Hin as [?|?]; congruence.
Qed.

Lemma dict_set_values (P : json -> Prop) (d : dict) (k : string) (v : json) :
  P v -> Forall (fun kv => P (snd kv)) d ->
  Forall (fun kv => P (snd kv)) (dict_set d k v).
Proof.
  intros Hv. induction 1 as [|[k' v'] d Hx Hd IH]; simpl.
  - repeat constructor. exact Hv.
  - destruct (String.eqb k k'); constructor; assumption.
Qed.

Lemma ok_dict_set (d : dict) (k : string) (v : json) :
  ok (JObj d) -> ok v -> ok (JObj (dict_set d k v)).
Proof.
  rewrite !ok_obj. intros [Hnd Hall] Hv. split.
  - rewrite dict_set_keys. case_bool_decide as Hin; [exact Hnd |].
    apply NoDup_app. repeat split; [exact Hnd | | apply NoDup_singleton].
    intros x Hx Hk. apply list_elem_of_singleton in Hk. congruence.
  - now apply dict_set_values.
Qed.

Lemma parse_ok (fuel : nat) :
  (forall s v r, parse_value fuel s = Some (v, r) -> ok v) /\
  (forall s l r, parse_elems fuel s = Some (l, r) -> Forall ok l) /\
  (forall acc s d r,
      ok (JObj acc) -> parse_members fuel acc s = Some (d, r) -> ok (JObj d)).
Proof.
  induction fuel as [|f (IHv & IHe & IHm)]; [split; [| split]; discriminate |].
  split; [| split].
  - intros s v r H. cbn [parse_value] in H.
    unfold parse_lit in H.
    repeat (case_match; try discriminate); simplify_eq; try exact I.
    all: try (eapply parse_number_ok; eassumption).
    all: try (apply ok_arr; solve [constructor | eauto]).
    all: try (apply ok_obj; split; solve [constructor]).
    all: eapply IHm; [| eassumption]; apply ok_obj; split; constructor.
  - intros s l r H. cbn [parse_elems] in H. unfold option_cons in H.
    repeat (case_match; try discriminate); simplify_eq;
      constructor; eauto.
  - intros acc s d r Hacc H. cbn [parse_members] in H.
    repeat (case_match; try discriminate); simplify_eq.
    + eapply IHm; [| eassumption]. apply ok_dict_set; eauto.
    + apply ok_dict_set; eauto.
Qed.

(** *** The fuel of [mini_loads] is enough *)

Lemma fuel_elems_length pr nl (l : list json) :
  1 <= String.length nl ->
  Forall (fun x => fuel_of x <= String.length (pr x)) l ->
  fuel_elems l <= String.length (print_elems pr nl l).
Proof.
  intros Hnl. induction 1 as [|x l Hx Hl IH]; [simpl; lia |].
  destruct l as [|y l'].
  - cbn [print_elems fuel_elems]. rewrite length_append. lia.
  - rewrite print_elems_cons2. cbn [fuel_elems] in *.
    rewrite !length_append. lia.
Qed.

Lemma fuel_membs_length pr nl (d : list (string * json)) :
  1 <= String.length nl ->
  Forall (fun kv => fuel_of (snd kv) <= String.length (pr (snd kv))) d ->
  fuel_membs d <= String.length (print_membs pr nl d).
Proof.
  intros Hnl. induction 1 as [|[k x] d Hx Hd IH]; [simpl; lia |]. simpl in Hx.
  destruct d as [|m d'].
  - cbn [print_membs fuel_membs]. rewrite !length_append. lia.
  - rewrite print_membs_cons2. cbn [fuel_membs] in *.
    rewrite !length_append. lia.
Qed.

Lemma fuel_of_length (v : json) :
  ok v -> forall lvl, fuel_of v <= String.length (print_json lvl v).
Proof.
  induction v as [|b|z|fl|s|l IH|d IH] using json_ind; intros Hok lvl.
  - simpl. lia.
  - destruct b; simpl; lia.
  - destruct (print_int_head z) as (c & r & Hc & _).
    cbn [print_json fuel_of]. rewrite Hc. simpl. lia.
  - destruct fl as [[]|[]| |]; try destruct Hok; simpl; lia.
  - simpl. lia.
  - destruct l as [|x l]; [simpl; lia |].
    change (print_json lvl (JArr (x :: l)))
      with ("[" +:+ print_elems (print_json (S lvl)) (newline_indent (S lvl)) (x :: l)
            +:+ newline_indent lvl +:+ "]").
    rewrite fuel_of_arr. apply ok_arr in Hok.
    assert (H := fuel_elems_length (print_json (S lvl)) (newline_indent (S lvl))
                   (x :: l)).
    rewrite !length_append. change (String.length "[") with 1.
    cut (fuel_elems (x :: l)
         <= String.length (print_elems (print_json (S lvl))
                             (newline_indent (S lvl)) (x :: l))); [lia |].
    apply H; [simpl; lia |].
    rewrite Forall_forall in IH, Hok |- *. intros y Hy. now apply IH, Hok.
  - destruct d as [|[k x] d]; [simpl; lia |].
    change (print_json lvl (JObj ((k, x) :: d)))
      with ("{" +:+ print_membs (print_json (S lvl)) (newline_indent (S lvl)) ((k, x) :: d)
            +:+ newline_indent lvl +:+ "}").
    rewrite fuel_of_obj. apply ok_obj in Hok. destruct Hok as [_ Hok].
    assert (H := fuel_membs_length (print_json (S lvl)) (newline_indent (S lvl))
                   ((k, x) :: d)).
    rewrite !length_append. change (String.length "{") with 1.
    cut (fuel_membs ((k, x) :: d)
         <= String.length (print_membs (print_json (S lvl))
                             (newline_indent (S lvl)) ((k, x) :: d))); [lia |].
    apply H; [simpl; lia |].
    rewrite Forall_forall in IH, Hok |- *. intros y Hy. now apply IH, Hok.
Qed.

(** *** The two halves of the contract *)

Lemma mini_loads_ok (text : string) (v : json) :
  mini_loads text = Some v -> ok v.
Proof.
  unfold mini_loads. intros H.
  destruct (parse_value _ text) as [[v' r]|] eqn:E; [| discriminate].
  destruct (skip_ws r); [| discriminate]. simplify_eq.
  eapply (proj1 (parse_ok _)); eassumption.
Qed.

Lemma append_nil_r (s : string) : s +:+ EmptyString = s.
Proof. induction s as [|c s IH]; simpl; [reflexivity | now rewrite IH]. Qed.

Lemma mini_loads_dumps (v : json) :
  ok v -> mini_loads (mini_dumps v) = Some v.
Proof.
  intros Hok. unfold mini_loads, mini_dumps.
  rewrite <- (append_nil_r (print_json 0 v)) at 2.
  rewrite (parse_print v Hok 0 _ EmptyString); [reflexivity | | reflexivity].
  pose proof (fuel_of_length v Hok 0). lia.
Qed.

Lemma mini_loads_dumps_setitem (text : string) (d : dict) (k s : string) :
  mini_loads text = Some (JObj d) ->
  mini_loads (mini_dumps (JObj (dict_set d k (JStr s))))
  = Some (JObj (dict_set d k (JStr s))).
Proof.
  intros H. apply mini_loads_dumps.
  apply ok_dict_set; [eapply mini_loads_ok; eassumption | exact I].
Qed.

(** *** What the writer writes is RFC 8259 unless a float is not finite *)

Lemma scan_neutral_app (a b : string) :
  scan_neutral a -> scan_neutral b -> scan_neutral (a +:+ b).
Proof. intros Ha Hb rest. now rewrite append_assoc, Ha, Hb. Qed.

Lemma scan_neutral_uint (d : Decimal.uint) : scan_neutral (print_uint d).
Proof.
  intros rest.
  induction d as [|d IH|d IH|d IH|d IH|d IH|d IH|d IH|d IH|d IH|d IH];
    [reflexivity | exact IH ..].
Qed.

Lemma scan_neutral_int (z : Z) : scan_neutral (print_int z).
Proof.
  intros rest. unfold print_int. destruct (z <? 0)%Z.
  - exact (scan_neutral_uint _ rest).
  - apply scan_neutral_uint.
Qed.

Lemma scan_escape_char (c : ascii) (rest : string) :
  strict_scan true (escape_char c +:+ rest) = strict_scan true rest.
Proof. destruct c as [[] [] [] [] [] [] [] []]; reflexivity. Qed.

Lemma scan_escape (s rest : string) :
  strict_scan true (escape s +:+ String dquote rest) = strict_scan false rest.
Proof.
  induction s as [|c s IH]; cbn [escape].
  - reflexivity.
  - now rewrite append_assoc, scan_escape_char.
Qed.

Lemma scan_neutral_str (s : string) : scan_neutral (encode_str s).
Proof.
  intros rest. destruct (parse_encode_str s rest) as (r & Hr & _).
  unfold encode_str.
  change (String dquote ?a +:+ ?b) with (String dquote (a +:+ b)).
  rewrite append_assoc. exact (scan_escape s rest).
Qed.

Lemma scan_neutral_spaces (n : nat) : scan_neutral (spaces n).
Proof. intros rest. induction n as [|n IH]; [reflexivity | exact IH]. Qed.

Lemma scan_neutral_newline (lvl : nat) : scan_neutral (newline_indent lvl).
Proof. intros rest. exact (scan_neutral_spaces _ rest). Qed.

Lemma scan_neutral_elems pr nl (l : list json) :
  scan_neutral nl -> Forall (fun x => scan_neutral (pr x)) l ->
  scan_neutral (print_elems pr nl l).
Proof.
  intros Hnl Hl. induction Hl as [|x l Hx Hl IH]; [intros rest; reflexivity |].
  destruct l as [|y l].
  - now apply scan_neutral_app.
  - rewrite print_elems_cons2.
    repeat apply scan_neutral_app; try assumption. intros rest; reflexivity.
Qed.

Lemma scan_neutral_membs pr nl (d : list (string * json)) :
  scan_neutral nl -> Forall (fun kv => scan_neutral (pr (snd kv))) d ->
  scan_neutral (print_membs pr nl d).
Proof.
  intros Hnl Hd.
  induction Hd as [|[k x] d Hx Hd IH]; [intros rest; reflexivity |].
  destruct d as [|m d].
  - repeat apply scan_neutral_app;
      first [assumption | apply scan_neutral_str | intros rest; reflexivity].
  - rewrite print_membs_cons2.
    repeat apply scan_neutral_app;
      first [assumption | apply scan_neutral_str | intros rest; reflexivity].
Qed.

Lemma scan_neutral_print (v : json) :
  ok v -> all_finite v = true -> forall lvl, scan_neutral (print_json lvl v).
Proof.
  induction v as [|b|z|fl|s|l IH|d IH] using json_ind; intros Hok Hfin lvl.
  - intros rest; reflexivity.
  - destruct b; intros rest; reflexivity.
  - apply scan_neutral_int.
  - destruct fl as [[]|[]| |]; try discriminate Hfin; try destruct Hok;
      intros rest; reflexivity.
  - apply scan_neutral_str.
  - destruct l as [|x l]; [intros rest; reflexivity |].
    change (print_json lvl (JArr (x :: l)))
      with ("[" +:+ print_elems (print_json (S lvl)) (newline_indent (S lvl)) (x :: l)
            +:+ newline_indent lvl +:+ "]").
    repeat apply scan_neutral_app; try (intros rest; reflexivity);
      [| apply scan_neutral_newline].
    apply scan_neutral_elems; [apply scan_neutral_newline |].
    apply ok_arr in Hok. cbn [all_finite] in Hfin.
    rewrite forallb_forall in Hfin.
    rewrite !Forall_forall in *. intros y Hy.
    apply IH; [assumption | now apply Hok |].
    apply Hfin. now apply (proj1 (list_elem_of_In _ _)).
  - destruct d as [|[k x] d]; [intros rest; reflexivity |].
    change (print_json lvl (JObj ((k, x) :: d)))
      with ("{" +:+ print_membs (print_json (S lvl)) (newline_indent (S lvl))
                      ((k, x) :: d)
            +:+ newline_indent lvl +:+ "}").
    repeat apply scan_neutral_app; try (intros rest; reflexivity);
      [| apply scan_neutral_newline].
    apply scan_neutral_membs; [apply scan_neutral_newline |].
    apply ok_obj in Hok as [_ Hok]. cbn [all_finite] in Hfin.
    rewrite forallb_forall in Hfin.
    rewrite !Forall_forall in *. intros y Hy.
    apply IH; [assumption | now apply Hok |].
    apply Hfin. now apply (proj1 (list_elem_of_In _ _)).
Qed.

(** The text written for a document without NaN and infinity is strict
    JSON. *)
Lemma strict_json_dumps (v : json) :
  ok v -> all_finite v = true -> strict_json (mini_dumps v) = true.
Proof.
  intros Hok Hfin. unfold strict_json. rewrite (mini_loads_dumps v Hok).
  unfold mini_dumps. rewrite <- (append_nil_r (print_json 0 v)).
  now rewrite (scan_neutral_print v Hok Hfin 0 EmptyString).
Qed.

Lemma all_finite_dict_set (d : dict) (k : string) (v : json) :
  all_finite (JObj d) = true -> all_finite v = true ->
  all_finite (JObj (dict_set d k v)) = true.
Proof.
  cbn [all_finite]. intros Hd Hv.
  induction d as [|[k' v'] d IH]; simpl in *; [now rewrite Hv |].
  apply andb_true_iff in Hd as [Hx Hd].
  destruct (String.eqb k k'); simpl; [now rewrite Hv | now rewrite Hx, IH].
Qed.

End MiniJsonFacts.

(** MiniJson meets the contract of the [json] module. *)
#[global] Instance mini_json : JsonLib :=
  {| loads := MiniJson.mini_loads;
     dumps := MiniJson.mini_dumps;
     loads_dumps_setitem := MiniJsonFacts.mini_loads_dumps_setitem |}.


(** * Properties of the program *)

(** ** Strings *)

Lemma prefix_app (sub s : string) :
  String.prefix sub s = true <-> exists b, s = sub +:+ b.
Proof.
  revert s. induction sub as [|c sub IH]; intros s.
  - destruct s; simpl; split; eauto.
  - destruct s as [|c' s]; simpl.
    + split; [discriminate | intros [b Hb]; discriminate].
    + destruct (Ascii.ascii_dec c c') as [->|Hne].
      * rewrite IH. split; intros [b Hb]; exists b; congruence.
      * split; [discriminate | intros [b Hb]; congruence].
Qed.

Lemma contains_spec (sub s : string) :
  contains sub s = true <-> is_substring sub s.
Proof.
  unfold is_substring. induction s as [|c s IH]; cbn [contains].
  - rewrite orb_false_r, prefix_app. split.
    + intros [b Hb]. exists EmptyString, b. exact Hb.
    + intros (a & b & H). destruct a; [eauto | discriminate].
  - rewrite orb_true_iff, IH, prefix_app. split.
    + intros [[b Hb]|(a & b & H)].
      * exists EmptyString, b. exact Hb.
      * exists (String c a), b. simpl. now rewrite H.
    + intros (a & b & H). destruct a as [|c' a]; simpl in H.
      * left. eauto.
      * right. exists a, b. congruence.
Qed.

Lemma upper_app (a b : string) : upper (a +:+ b) = upper a +:+ upper b.
Proof. induction a as [|c a IH]; simpl; [reflexivity | now rewrite IH]. Qed.

Lemma is_substring_upper (sub s : string) :
  is_substring sub s -> is_substring (upper sub) (upper s).
Proof.
  intros (a & b & ->). exists (upper a), (upper b). now rewrite !upper_app.
Qed.

(** ** Dictionaries *)

Lemma dict_lookup_set_eq (d : dict) (k : string) (v : json) :
  dict_lookup k (dict_set d k v) = Some v.
Proof.
  induction d as [|[k' v'] d IH]; simpl.
  - now rewrite String.eqb_refl.
  - destruct (String.eqb k k') eqn:E; simpl; now rewrite E.
Qed.

Lemma dict_lookup_set_ne (d : dict) (k k' : string) (v : json) :
  k' <> k -> dict_lookup k' (dict_set d k v) = dict_lookup k' d.
Proof.
  intros Hne. induction d as [|[k0 v0] d IH]; simpl.
  - now apply String.eqb_neq in Hne as ->.
  - destruct (String.eqb_spec k k0) as [->|Hk]; simpl.
    + now apply String.eqb_neq in Hne as ->.
    + now rewrite IH.
Qed.

Lemma dict_get_set_eq (d : dict) (k : string) (v : json) :
  dict_get (dict_set d k v) k = v.
Proof. unfold dict_get. now rewrite dict_lookup_set_eq. Qed.

(** ** Inference *)

Lemma VALID_DIRECTIONS_elems (g : string) :
  g ∈ VALID_DIRECTIONS <->
  g = "i" \/ g = "i-" \/ g = "j" \/ g = "j-" \/ g = "k" \/ g = "k-".
Proof.
  unfold VALID_DIRECTIONS. rewrite !elem_of_union, !elem_of_singleton. tauto.
Qed.

Lemma infer_from_name_valid (name g : string) :
  infer_from_name name = Some g -> g ∈ VALID_DIRECTIONS.
Proof.
  unfold infer_from_name. intros H. apply VALID_DIRECTIONS_elems.
  repeat (case_match; [simplify_eq; tauto |]). discriminate.
Qed.

Lemma valid_truthy (g : string) :
  g ∈ VALID_DIRECTIONS -> truthy (JStr g) = true.
Proof.
  intros H. apply VALID_DIRECTIONS_elems in H.
  destruct H as [->|[->|[->|[->|[->| ->]]]]]; reflexivity.
Qed.

Lemma infer_direction_valid (meta : json) (p : path) (g : string) :
  infer_direction_from_dir meta p = Ret (Some g) -> g ∈ VALID_DIRECTIONS.
Proof.
  unfold infer_direction_from_dir, hint_name, res_bind. intros H.
  repeat (case_match; try discriminate). simplify_eq.
  eapply infer_from_name_valid; eassumption.
Qed.

(** ** The paths through [validate_json] *)

Section Validation.
Context `{JsonLib}.

Lemma infer_direction_raises (meta : json) (p : path) (e : exn) :
  infer_direction_from_dir meta p = Raise e -> e = AttributeError.
Proof.
  unfold infer_direction_from_dir, hint_name, res_bind, py_get, py_upper.
  intros H0. repeat (case_match; try discriminate); congruence.
Qed.

Lemma validate_json_validates (p : path) (fix_ : bool) (s : fs) :
  forall r s' out,
    validate_json p fix_ s = (r, s', out) -> validates p fix_ s r s' out.
Proof.
  intros r s' out.
  unfold validate_json, try_except, mbind, read_text, py_loads, lift, print,
    mret, raise, write_text.
  destruct (s !! p) as [[|text [] w]|] eqn:Hp; simpl;
    try (intros [= <- <- <-]; apply V_unreadable; unfold readable_text;
         now rewrite Hp).
  assert (Hr : readable_text s p = Some text)
    by (unfold readable_text; now rewrite Hp).
  destruct (loads text) as [meta|] eqn:Hl; simpl;
    [| intros [= <- <- <-]; eapply V_malformed; eassumption].
  destruct (py_get meta target) as [ped|e] eqn:Hg; simpl.
  2:{ intros [= <- <- <-].
      assert (e = AttributeError) as ->
        by (destruct meta; simpl in Hg; congruence).
      eapply V_not_a_dict; eassumption. }
  assert (exists d, meta = JObj d /\ ped = dict_get d target) as (d & -> & ->)
    by (destruct meta; simpl in Hg; try discriminate; simplify_eq; eauto).
  destruct (in_VALID_DIRECTIONS (dict_get d target)) as [[]|e] eqn:Hv; simpl.
  - intros [= <- <- <-].
    destruct (dict_get d target) eqn:Hd; simpl in Hv; try discriminate.
    injection Hv as Hv. apply bool_decide_eq_true in Hv.
    eapply V_valid; eassumption.
  - destruct fix_; simpl;
      [| intros [= <- <- <-]; eapply V_unfixed; eauto].
    destruct (infer_direction_from_dir (JObj d) p) as [[g|]|e] eqn:Hi; simpl.
    + pose proof (infer_direction_valid _ _ _ Hi) as Hg'.
      pose proof (valid_truthy g Hg') as Ht. simpl in Ht. rewrite Ht.
      simpl. rewrite Hp.
      destruct w; simpl; intros [= <- <- <-].
      * eapply V_fixed; eauto.
      * eapply V_write_failed; eauto.
    + intros [= <- <- <-]. eapply V_uninferable; eauto.
    + intros [= <- <- <-].
      pose proof (infer_direction_raises _ _ _ Hi) as ->.
      eapply V_hint_fault; eauto.
  - intros [= <- <- <-].
    assert (e = TypeError) as ->
      by (destruct (dict_get d target); simpl in Hv; congruence).
    eapply V_unhashable; eassumption.
Qed.

End Validation.

(** ** Inference order (C1) *)

Example scenario_a :
  infer_direction_from_dir (JObj [("dir", JStr "PA")])
    ["sub-01"; "dwi"; "sub-01_dir-PA_dwi.json"] = Ret (Some "j-").
Proof. reflexivity. Qed.

Example scenario_b :
  infer_direction_from_dir (JObj [])
    ["sub-02"; "ses-01"; "dwi"; "sub-02_acq-AP_dwi.json"] = Ret (Some "j").
Proof. reflexivity. Qed.

Lemma infer_from_name_first_match (name : string) :
  infer_from_name name = spec_first_match name.
Proof.
  unfold infer_from_name, spec_first_match, direction_codes. simpl.
  repeat (destruct (contains _ name); [reflexivity |]). reflexivity.
Qed.

Lemma infer_of_hint_name (meta : json) (p : path) (name : string) :
  hint_name meta p = Ret name ->
  infer_direction_from_dir meta p = Ret (infer_from_name name).
Proof. unfold infer_direction_from_dir. now intros ->. Qed.

(** C1.  Whenever the hint yields the upper-cased name [name], the result
    of the inference is the direction of the first of PA, AP, RL, LR, SI, IS
    (in this order) that [name] contains; a name containing both PA and AP
    gives j- (also when the token contained them before upper-casing), and a
    name containing none of the six codes gives no result. *)
Theorem C1_first_match_wins (meta : json) (p : path) (name : string) :
  hint_name meta p = Ret name ->
  infer_direction_from_dir meta p = Ret (spec_first_match name)
  /\ (is_substring "PA" name -> is_substring "AP" name ->
      infer_direction_from_dir meta p = Ret (Some "j-"))
  /\ (forall tok, name = upper tok ->
      is_substring "PA" tok -> is_substring "AP" tok ->
      infer_direction_from_dir meta p = Ret (Some "j-"))
  /\ ((forall code, In code (map fst direction_codes) ->
       ~ is_substring code name) ->
      infer_direction_from_dir meta p = Ret None).
Proof.
  intros Hname. rewrite (infer_of_hint_name _ _ _ Hname).
  assert (HPA : is_substring "PA" name -> infer_from_name name = Some "j-").
  { intros HPA. apply contains_spec in HPA.
    unfold infer_from_name. now rewrite HPA. }
  split; [| split; [| split]].
  - now rewrite infer_from_name_first_match.
  - intros Hsub _. now rewrite HPA.
  - intros tok -> Hsub _. rewrite HPA; [reflexivity |].
    exact (is_substring_upper "PA" tok Hsub).
  - intros Hnone.
    assert (Hc : forall code, In code (map fst direction_codes) ->
                              contains code name = false).
    { intros code Hin. destruct (contains code name) eqn:E; [| reflexivity].
      apply contains_spec in E. now apply Hnone in E. }
    unfold infer_from_name.
    rewrite !Hc by (simpl; tauto). reflexivity.
Qed.

Lemma C1_first_match_wins_witness :
  hint_name (JObj [("dir", JStr "apa")]) ["sub-01"; "dwi"; "x.json"] = Ret "APA"
  /\ infer_direction_from_dir (JObj [("dir", JStr "apa")])
       ["sub-01"; "dwi"; "x.json"] = Ret (Some "j-").
Proof.
  split; [reflexivity |].
  apply (C1_first_match_wins (JObj [("dir", JStr "apa")])
           ["sub-01"; "dwi"; "x.json"] "APA" eq_refl).
  - exists "A", "". reflexivity.
  - exists "", "A". reflexivity.
Defined.

(** ** Per-file validation *)

Section PerFile.
Context `{JsonLib}.

Lemma validate_json_valid (p : path) (fix_ : bool) (s : fs)
  (text : string) (w : bool) (d : dict) (g : string) :
  s !! p = Some (File text true w) ->
  loads text = Some (JObj d) ->
  dict_get d target = JStr g ->
  g ∈ VALID_DIRECTIONS ->
  validate_json p fix_ s = (Ret true, s, [MsgValid p (JStr g)]).
Proof.
  intros Hp Hl Hd Hg.
  unfold validate_json, try_except, mbind, read_text, py_loads, lift, print,
    mret, raise.
  rewrite Hp. simpl. rewrite Hl. simpl. rewrite Hd. simpl.
  rewrite bool_decide_eq_true_2 by exact Hg. reflexivity.
Qed.

Lemma validate_json_parse_error (p : path) (fix_ : bool) (s : fs) :
  (forall text, readable_text s p = Some text -> loads text = None) ->
  exists e, validate_json p fix_ s = (Ret false, s, [MsgInvalidJSON p e]).
Proof.
  intros Hbad.
  unfold validate_json, try_except, mbind, read_text, py_loads, lift, print,
    mret, raise.
  unfold readable_text in Hbad.
  destruct (s !! p) as [[|text [] w]|]; simpl; eauto.
  rewrite (Hbad text eq_refl). simpl. eauto.
Qed.

(** C4.  A call of [validate_json] leaves the file system exactly as it was
    unless its outcome is Invalid-Fixed (so for Valid, Parse-Error,
    Invalid-Unfixed and Invalid-Uninferable nothing is written), it never
    touches a path other than its own, and Invalid-Fixed only happens when
    fixing is enabled. *)
Theorem C4_write_only_when_fixed (p : path) (fix_ : bool) (s s' : fs)
  (r : res bool) (out : list msg) :
  validate_json p fix_ s = (r, s', out) ->
  (outcome_of r out <> Some InvalidFixed -> s' = s)
  /\ (forall o, outcome_of r out = Some o ->
      o = Valid \/ o = ParseError \/ o = InvalidUnfixed \/ o = InvalidUninferable ->
      s' = s)
  /\ (forall q, q <> p -> s' !! q = s !! q)
  /\ (outcome_of r out = Some InvalidFixed -> fix_ = true).
Proof.
  intros Hrun. apply validate_json_validates in Hrun.
  destruct Hrun; simpl; repeat split; try reflexivity; try congruence;
    try (intros; discriminate).
  - intros o [= <-] [?|[?|[?|?]]]; discriminate.
  - intros q Hq. now rewrite lookup_insert_ne.
Qed.


(** C7.  A file that cannot be read, or whose text does not parse, gives
    outcome Parse-Error: [validate_json] returns [False] after printing the
    one line that reports the failure, writes nothing, and the loop of
    [main] goes on with the remaining files with the count of valid files
    unchanged. *)
Theorem C7_parse_error_is_local (p : path) (fix_ : bool) (s : fs) :
  (forall text, readable_text s p = Some text -> loads text = None) ->
  exists e,
    validate_json p fix_ s = (Ret false, s, [MsgInvalidJSON p e])
    /\ outcome p fix_ s = Some ParseError
    /\ forall rest n_valid,
        count_valid (p :: rest) fix_ n_valid s
        = let '(r, s', out) := count_valid rest fix_ n_valid s in
          (r, s', MsgInvalidJSON p e :: out).
Proof.
  intros Hbad. destruct (validate_json_parse_error p fix_ s Hbad) as [e He].
  exists e. split; [exact He |]. split.
  - unfold outcome. now rewrite He.
  - intros rest n. cbn [count_valid]. unfold mbind. rewrite He.
    destruct (count_valid rest fix_ n s) as [[r s'] out]. reflexivity.
Qed.

End PerFile.

(** ** Values written, and running the fix pass again *)

Section FixPass.
Context `{JsonLib}.

Lemma validate_json_uninferable (p : path) (s : fs) (text : string) (w : bool)
  (d : dict) :
  s !! p = Some (File text true w) ->
  loads text = Some (JObj d) ->
  in_VALID_DIRECTIONS (dict_get d target) = Ret false ->
  infer_direction_from_dir (JObj d) p = Ret None ->
  validate_json p true s
  = (Ret false, s, [MsgInvalidOrMissing p (dict_get d target); MsgCouldNotInfer]).
Proof.
  intros Hp Hl Hv Hi.
  unfold validate_json, try_except, mbind, read_text, py_loads, lift, print,
    mret, raise.
  rewrite Hp. simpl. rewrite Hl. simpl. rewrite Hv. simpl. rewrite Hi.
  reflexivity.
Qed.

(** After a fix, the file validates. *)
Lemma fixed_then_valid (p : path) (fix_ fix' : bool) (s s' : fs)
  (r : res bool) (out : list msg) :
  validate_json p fix_ s = (r, s', out) ->
  outcome_of r out = Some InvalidFixed ->
  exists g, g ∈ VALID_DIRECTIONS
            /\ target_field s' p = Some (JStr g)
            /\ validate_json p fix' s' = (Ret true, s', [MsgValid p (JStr g)]).
Proof.
  intros Hrun Hout. apply validate_json_validates in Hrun.
  destruct Hrun; simpl in Hout; try discriminate.
  assert (Hrt : loads (dumps (JObj (dict_set d target (JStr g))))
                = Some (JObj (dict_set d target (JStr g))))
    by (eapply loads_dumps_setitem; eassumption).
  exists g. split; [assumption |]. split.
  - unfold target_field, readable_text. rewrite lookup_insert_eq, Hrt.
    apply dict_lookup_set_eq.
  - eapply validate_json_valid.
    + apply lookup_insert_eq.
    + exact Hrt.
    + apply dict_get_set_eq.
    + assumption.
Qed.

Lemma validate_json_raise_unchanged (p : path) (fix_ : bool) (s s' : fs)
  (e : exn) (out : list msg) :
  validate_json p fix_ s = (Raise e, s', out) -> s' = s.
Proof.
  intros Hrun. apply validate_json_validates in Hrun.
  now inversion Hrun.
Qed.

Lemma validate_json_other (p q : path) (fix_ : bool) (s s' : fs)
  (r : res bool) (out : list msg) :
  validate_json p fix_ s = (r, s', out) -> q <> p -> s' !! q = s !! q.
Proof.
  intros Hrun Hq. apply validate_json_validates in Hrun.
  destruct Hrun; try reflexivity. now rewrite lookup_insert_ne.
Qed.

Lemma validate_json_dom (p : path) (fix_ : bool) (s s' : fs)
  (r : res bool) (out : list msg) :
  validate_json p fix_ s = (r, s', out) -> dom s' = dom s.
Proof.
  intros Hrun. apply validate_json_validates in Hrun.
  destruct Hrun; try reflexivity.
  rewrite dom_insert_L. apply subseteq_union_1_L, singleton_subseteq_l.
  apply elem_of_dom. eauto.
Qed.

Lemma validate_json_settles (p : path) (s s' : fs) (b : bool)
  (out : list msg) :
  validate_json p true s = (Ret b, s', out) -> settled p (s' !! p).
Proof.
  intros Hrun s2 Hs2.
  pose proof Hrun as Hv. apply validate_json_validates in Hv.
  inversion Hv; subst.
  - destruct (validate_json_parse_error p true s2) as [e He]; [| eauto].
    intros text Ht. unfold readable_text in *. rewrite Hs2 in Ht. congruence.
  - destruct (validate_json_parse_error p true s2) as [e He]; [| eauto].
    intros text' Ht. unfold readable_text in *. rewrite Hs2 in Ht. congruence.
  - unfold readable_text in *.
    destruct (s' !! p) as [[|t [] w]|] eqn:Hp; try discriminate. simplify_eq.
    eexists _, _. eapply validate_json_valid; eassumption.
  - discriminate.
  - unfold readable_text in *.
    destruct (s' !! p) as [[|t [] w]|] eqn:Hp; try discriminate. simplify_eq.
    eexists _, _. eapply validate_json_uninferable; eassumption.
  - destruct (fixed_then_valid p true true s _ _ _ Hrun eq_refl)
      as (g' & _ & _ & Hval).
    rewrite lookup_insert_eq in Hs2.
    eexists _, _. eapply validate_json_valid.
    + exact Hs2.
    + eapply loads_dumps_setitem; eassumption.
    + apply dict_get_set_eq.
    + assumption.
Qed.

Lemma validate_json_keeps_settled (p q : path) (s s' : fs) (r : res bool)
  (out : list msg) :
  settled q (s !! q) ->
  validate_json p true s = (r, s', out) ->
  settled q (s' !! q).
Proof.
  intros Hq Hrun. destruct (decide (q = p)) as [->|Hne].
  - destruct (Hq s eq_refl) as (b & out' & Hsame).
    rewrite Hsame in Hrun. now simplify_eq.
  - now rewrite (validate_json_other _ _ _ _ _ _ _ Hrun Hne).
Qed.

Lemma count_valid_keeps_settled (q : path) (files : list path) :
  forall n s r s' out,
    settled q (s !! q) ->
    count_valid files true n s = (r, s', out) ->
    settled q (s' !! q).
Proof.
  induction files as [|p files IH]; intros n s r s' out Hq Hrun.
  - cbn [count_valid] in Hrun. unfold mret in Hrun. now simplify_eq.
  - cbn [count_valid] in Hrun. unfold mbind in Hrun.
    destruct (validate_json p true s) as [[[b|e] sa] oa] eqn:Hp.
    + destruct (count_valid files true _ sa) as [[r2 s2] o2] eqn:Hrest.
      simplify_eq. eapply IH; [| exact Hrest].
      eapply validate_json_keeps_settled; eassumption.
    + simplify_eq. eapply validate_json_keeps_settled; eassumption.
Qed.

Lemma count_valid_dom (files : list path) (fix_ : bool) :
  forall n s r s' out,
    count_valid files fix_ n s = (r, s', out) -> dom s' = dom s.
Proof.
  induction files as [|p files IH]; intros n s r s' out Hrun.
  - cbn [count_valid] in Hrun. unfold mret in Hrun. now simplify_eq.
  - cbn [count_valid] in Hrun. unfold mbind in Hrun.
    destruct (validate_json p fix_ s) as [[[b|e] sa] oa] eqn:Hp.
    + destruct (count_valid files fix_ _ sa) as [[r2 s2] o2] eqn:Hrest.
      simplify_eq. rewrite (IH _ _ _ _ _ Hrest).
      eapply validate_json_dom; eassumption.
    + simplify_eq. eapply validate_json_dom; eassumption.
Qed.

(** The loop run again over the same files writes nothing. *)
Lemma count_valid_again (files : list path) :
  forall n s r1 s1 o1,
    count_valid files true n s = (r1, s1, o1) ->
    forall n', exists r2 o2, count_valid files true n' s1 = (r2, s1, o2).
Proof.
  induction files as [|p files IH]; intros n s r1 s1 o1 Hrun n'.
  - cbn [count_valid] in Hrun |- *. unfold mret in *. simplify_eq. eauto.
  - cbn [count_valid] in Hrun |- *. unfold mbind in Hrun |- *.
    destruct (validate_json p true s) as [[[b|e] sa] oa] eqn:Hp.
    + destruct (count_valid files true _ sa) as [[r2 s2] o2] eqn:Hrest.
      simplify_eq.
      assert (Hset : settled p (s1 !! p)).
      { eapply count_valid_keeps_settled; [| exact Hrest].
        eapply validate_json_settles; eassumption. }
      destruct (Hset s1 eq_refl) as (b' & out' & ->).
      destruct (IH _ _ _ _ _ Hrest (if b' then S n' else n')) as (r3 & o3 & ->).
      eauto.
    + simplify_eq.
      pose proof (validate_json_raise_unchanged _ _ _ _ _ _ Hp) as ->.
      rewrite Hp. eauto.
Qed.

(** [main] in one piece. *)
Lemma main_unfold (bids_root : path) (fix_ : bool) (s : fs) :
  main bids_root fix_ s =
  let files := matching_paths bids_root pattern s in
  match files with
  | [] => (Raise (SystemExit 1), s, [MsgNoFiles bids_root])
  | _ :: _ =>
      match count_valid files fix_ 0 s with
      | (Ret n_valid, s', out) =>
          (Ret tt, s',
           MsgChecking (length files) bids_root
           :: (out ++ MsgSummary n_valid (length files)
                      :: (if fix_ then [MsgAllUpdated] else []))%list)
      | (Raise e, s', out) =>
          (Raise e, s', MsgChecking (length files) bids_root :: out)
      end
  end.
Proof.
  unfold main, rglob, mbind, print, raise, mret. cbv zeta.
  destruct (matching_paths bids_root pattern s) as [|p files]; [reflexivity |].
  destruct (count_valid (p :: files) fix_ 0 s) as [[[n|e] s'] out];
    [| reflexivity].
  destruct fix_; simpl; rewrite ?app_nil_r; reflexivity.
Qed.

Lemma main_dom (bids_root : path) (fix_ : bool) (s s' : fs) (r : res unit)
  (out : list msg) :
  main bids_root fix_ s = (r, s', out) -> dom s' = dom s.
Proof.
  rewrite main_unfold. cbv zeta.
  destruct (matching_paths bids_root pattern s) as [|p files];
    [intros; now simplify_eq |].
  destruct (count_valid (p :: files) fix_ 0 s) as [[[n|e] sa] oa] eqn:Hc;
    intros; simplify_eq; eapply count_valid_dom; eassumption.
Qed.

Lemma main_again (bids_root : path) (s s1 s2 : fs) (r1 r2 : res unit)
  (o1 o2 : list msg) :
  main bids_root true s = (r1, s1, o1) ->
  main bids_root true s1 = (r2, s2, o2) ->
  s2 = s1.
Proof.
  intros H1 H2. pose proof (main_dom _ _ _ _ _ _ H1) as Hdom.
  rewrite main_unfold in H1, H2. cbv zeta in H1, H2.
  assert (Hfound : matching_paths bids_root pattern s1
                   = matching_paths bids_root pattern s)
    by (unfold matching_paths; now rewrite Hdom).
  rewrite Hfound in H2.
  destruct (matching_paths bids_root pattern s) as [|p files];
    [now simplify_eq |].
  destruct (count_valid (p :: files) true 0 s) as [[r sa] oa] eqn:Hc.
  assert (sa = s1) as -> by (destruct r; now simplify_eq).
  destruct (count_valid_again _ _ _ _ _ _ Hc 0) as (r3 & o3 & Hc2).
  rewrite Hc2 in H2. destruct r3; now simplify_eq.
Qed.

End FixPass.

Section FixPassClaims.
Context `{JsonLib}.

(** C5.  Running [main] with fixing enabled a second time leaves the whole
    file system, and so the target field of every file, as the first run
    left it; validating a file whose field is already valid writes nothing;
    and a file that was fixed validates as Valid afterwards, with or without
    fixing. *)
Theorem C5_fix_pass_idempotent (bids_root : path) (s s1 s2 : fs)
  (r1 r2 : res unit) (o1 o2 : list msg) :
  main bids_root true s = (r1, s1, o1) ->
  main bids_root true s1 = (r2, s2, o2) ->
  s2 = s1
  /\ (forall p, target_field s2 p = target_field s1 p)
  /\ (forall p s0 r s' out,
        validate_json p true s0 = (r, s', out) ->
        outcome_of r out = Some Valid -> s' = s0)
  /\ (forall p fix_ s0 r s' out,
        validate_json p fix_ s0 = (r, s', out) ->
        outcome_of r out = Some InvalidFixed ->
        forall fix', outcome p fix' s' = Some Valid).
Proof.
  intros H1 H2. pose proof (main_again _ _ _ _ _ _ _ _ H1 H2) as ->.
  split; [reflexivity |]. split; [reflexivity |]. split.
  - intros p s0 r s' out Hrun Hout.
    apply validate_json_validates in Hrun.
    destruct Hrun; simpl in Hout; congruence.
  - intros p fix_ s0 r s' out Hrun Hout fix'.
    destruct (fixed_then_valid p fix_ fix' _ _ _ _ Hrun Hout)
      as (g & _ & _ & Hval).
    unfold outcome. now rewrite Hval.
Qed.

(** C10.  Whatever [infer_direction_from_dir] returns is either no result
    or one of the six valid directions, and it does return whenever the
    hint is a string; so whenever [validate_json] changes the file system
    or ends with outcome Invalid-Fixed, the file it wrote holds a valid
    direction in the target field, and validating that file again, with or
    without fixing, gives Valid. *)
Theorem C10_inferred_direction_valid (meta : json) (q : path)
  (guess : option string) :
  infer_direction_from_dir meta q = Ret guess ->
  (guess = None \/ exists g, guess = Some g /\ g ∈ VALID_DIRECTIONS)
  /\ (forall d p tok,
        py_or (dict_get d "dir") (JStr (path_name p)) = JStr tok ->
        exists r, infer_direction_from_dir (JObj d) p = Ret r)
  /\ (forall p fix_ s r s' out,
        validate_json p fix_ s = (r, s', out) ->
        s' <> s \/ outcome_of r out = Some InvalidFixed ->
        exists g, g ∈ VALID_DIRECTIONS
                  /\ target_field s' p = Some (JStr g)
                  /\ forall fix', outcome p fix' s' = Some Valid).
Proof.
  intros Hinfer. split; [| split].
  - destruct guess as [g|]; [right | now left].
    exists g. split; [reflexivity |]. eapply infer_direction_valid; eassumption.
  - intros d p tok Htok.
    unfold infer_direction_from_dir, hint_name. simpl. rewrite Htok. simpl.
    eauto.
  - intros p fix_ s r s' out Hrun Hchanged.
    pose proof Hrun as Hv. apply validate_json_validates in Hv.
    destruct Hv; try (destruct Hchanged; [congruence | discriminate]).
    destruct (fixed_then_valid p fix_ true _ _ _ _ Hrun eq_refl)
      as (g' & Hg' & Hfield & _).
    exists g'. split; [assumption |]. split; [assumption |].
    intros fix'.
    destruct (fixed_then_valid p fix_ fix' _ _ _ _ Hrun eq_refl)
      as (g2 & _ & _ & Hval).
    unfold outcome. now rewrite Hval.
Qed.

End FixPassClaims.

(** ** File discovery *)

Lemma fnmatch_star_cons (pat : string) (c : ascii) (n : string) :
  fnmatch (String "*" pat) (String c n)
  = fnmatch pat (String c n) || fnmatch (String "*" pat) n.
Proof. reflexivity. Qed.

Lemma fnmatch_star_nil (pat : string) :
  fnmatch (String "*" pat) EmptyString = fnmatch pat EmptyString.
Proof. simpl. apply orb_false_r. Qed.

Lemma fnmatch_star_any (n : string) : fnmatch "*" n = true.
Proof.
  induction n as [|c n IH]; [reflexivity |].
  rewrite fnmatch_star_cons, IH. apply orb_true_r.
Qed.

Lemma fnmatch_subject (rest : string) : fnmatch "sub-*" ("sub-" +:+ rest) = true.
Proof. simpl. apply fnmatch_star_any. Qed.

Lemma fnmatch_json (stem : string) : fnmatch "*.json" (stem +:+ ".json") = true.
Proof.
  induction stem as [|c stem IH]; [reflexivity |].
  change (String c stem +:+ ".json") with (String c (stem +:+ ".json")).
  rewrite fnmatch_star_cons, IH. apply orb_true_r.
Qed.

Lemma glob_match_starstar (pats : list string) (rel : path) :
  glob_match ("**" :: pats) rel
  = glob_match pats rel ||
    match rel with
    | [] => false
    | _ :: rel' => glob_match ("**" :: pats) rel'
    end.
Proof. destruct rel; reflexivity. Qed.

Lemma glob_match_skip (pats : list string) (pre rel : path) :
  glob_match pats rel = true ->
  glob_match ("**" :: pats) (pre ++ rel)%list = true.
Proof.
  intros Hm. induction pre as [|c pre IH].
  - rewrite glob_match_starstar. cbn [app]. now rewrite Hm.
  - cbn [app]. rewrite glob_match_starstar, IH. apply orb_true_r.
Qed.

Lemma strip_prefix_app (root rel : path) :
  strip_prefix root (root ++ rel)%list = Some rel.
Proof.
  induction root as [|c root IH]; simpl; [reflexivity |].
  now rewrite String.eqb_refl.
Qed.

Lemma in_matching_paths (root : path) (pats : list string) (s : fs) (p : path) :
  In p (matching_paths root pats s)
  <-> is_Some (s !! p) /\ under_root_matches root ("**" :: pats) p = true.
Proof.
  unfold matching_paths. rewrite filter_In, <- list_elem_of_In.
  rewrite elem_of_elements, elem_of_dom. reflexivity.
Qed.

(** Every relative path [pre/sub-x/mid/dwi/stem.json] matches. *)
Lemma pattern_complete (pre mid : path) (sub_id stem : string) :
  glob_match ("**" :: pattern)
    (pre ++ ("sub-" +:+ sub_id) :: mid ++ ["dwi"; stem +:+ ".json"])%list = true.
Proof.
  apply glob_match_skip. unfold pattern.
  change (glob_match ("sub-*" :: ?ps) (?c :: ?r))
    with (fnmatch "sub-*" c && glob_match ps r).
  rewrite fnmatch_subject. cbn [andb].
  apply glob_match_skip.
  change (glob_match ["dwi"; "*.json"] ["dwi"; stem +:+ ".json"])
    with (fnmatch "dwi" "dwi" && (fnmatch "*.json" (stem +:+ ".json") && true)).
  now rewrite fnmatch_json.
Qed.

Lemma matching_paths_complete (s : fs) (root pre mid : path)
  (sub_id stem : string) (e : entry) :
  s !! (root ++ pre ++ ("sub-" +:+ sub_id) :: mid ++ ["dwi"; stem +:+ ".json"])%list
  = Some e ->
  In (root ++ pre ++ ("sub-" +:+ sub_id) :: mid ++ ["dwi"; stem +:+ ".json"])%list
    (matching_paths root pattern s).
Proof.
  intros Hs. apply in_matching_paths. split; [eauto |].
  unfold under_root_matches. rewrite strip_prefix_app. apply pattern_complete.
Qed.

Ltac split_andb :=
  repeat match goal with
         | H : _ && _ = true |- _ => apply andb_true_iff in H as [? ?]
         | H : Ascii.eqb _ _ = true |- _ => apply Ascii.eqb_eq in H; subst
         end.

Lemma glob_match_starstar_inv (pats : list string) (rel : path) :
  glob_match ("**" :: pats) rel = true ->
  exists pre r, rel = (pre ++ r)%list /\ glob_match pats r = true.
Proof.
  induction rel as [|c rel IH]; rewrite glob_match_starstar, orb_true_iff.
  - intros [Hm|Hf]; [| discriminate]. now exists [], [].
  - intros [Hm|Hm]; [now exists [], (c :: rel) |].
    destruct (IH Hm) as (pre & r & -> & Hr). now exists (c :: pre), r.
Qed.

Lemma fnmatch_subject_inv (x : string) :
  fnmatch "sub-*" x = true -> exists rest, x = "sub-" +:+ rest.
Proof.
  destruct x as [|c1 [|c2 [|c3 [|c4 r]]]]; cbn [fnmatch]; intros Hm;
    rewrite ?andb_false_r in Hm; try discriminate.
  split_andb. now exists r.
Qed.

Lemma fnmatch_dwi_inv (x : string) : fnmatch "dwi" x = true -> x = "dwi".
Proof.
  destruct x as [|c1 [|c2 [|c3 [|c4 r]]]]; cbn [fnmatch]; intros Hm;
    rewrite ?andb_false_r in Hm; try discriminate.
  now split_andb.
Qed.

Lemma fnmatch_dot_json_inv (x : string) : fnmatch ".json" x = true -> x = ".json".
Proof.
  destruct x as [|c1 [|c2 [|c3 [|c4 [|c5 [|c6 r]]]]]]; cbn [fnmatch]; intros Hm;
    rewrite ?andb_false_r in Hm; try discriminate.
  now split_andb.
Qed.

Lemma fnmatch_json_inv (x : string) :
  fnmatch "*.json" x = true -> exists stem, x = stem +:+ ".json".
Proof.
  induction x as [|c x IH].
  - rewrite fnmatch_star_nil. discriminate.
  - rewrite fnmatch_star_cons, orb_true_iff. intros [Hm|Hm].
    + apply fnmatch_dot_json_inv in Hm. now exists EmptyString.
    + destruct (IH Hm) as [stem ->]. now exists (String c stem).
Qed.

Lemma pattern_sound (rel : path) :
  glob_match ("**" :: pattern) rel = true ->
  exists pre sub_id mid stem,
    rel = (pre ++ ("sub-" +:+ sub_id) :: mid ++ ["dwi"; stem +:+ ".json"])%list.
Proof.
  intros Hm. apply glob_match_starstar_inv in Hm as (pre & r & -> & Hm).
  unfold pattern in Hm. destruct r as [|c r]; [discriminate |].
  change (fnmatch "sub-*" c && glob_match ["**"; "dwi"; "*.json"] r = true) in Hm.
  apply andb_true_iff in Hm as [Hsub Hm].
  apply fnmatch_subject_inv in Hsub as [sub_id ->].
  apply glob_match_starstar_inv in Hm as (mid & r2 & -> & Hm).
  destruct r2 as [|d [|n [|x r3]]]; try discriminate.
  - change (fnmatch "dwi" d && false = true) in Hm.
    now rewrite andb_false_r in Hm.
  - change (fnmatch "dwi" d && (fnmatch "*.json" n && true) = true) in Hm.
    apply andb_true_iff in Hm as [Hd Hn]. rewrite andb_true_r in Hn.
    apply fnmatch_dwi_inv in Hd as ->.
    apply fnmatch_json_inv in Hn as [stem ->].
    now exists pre, sub_id, mid, stem.
  - change (fnmatch "dwi" d && (fnmatch "*.json" n && false) = true) in Hm.
    now rewrite !andb_false_r in Hm.
Qed.

Lemma strip_prefix_inv (root p rel : path) :
  strip_prefix root p = Some rel -> p = (root ++ rel)%list.
Proof.
  revert p. induction root as [|c root IH]; intros p; simpl.
  - now intros [= ->].
  - destruct p as [|c' p]; [discriminate |].
    destruct (String.eqb_spec c c') as [->|]; [| discriminate].
    intros Hp. now rewrite (IH _ Hp).
Qed.

(** Exactly the entries below the root at [pre/sub-x/mid/dwi/stem.json]
    are discovered. *)
Lemma matching_paths_exact (s : fs) (root p : path) :
  In p (matching_paths root pattern s)
  <-> is_Some (s !! p)
      /\ exists pre sub_id mid stem,
          p = (root ++ pre ++ ("sub-" +:+ sub_id) :: mid
                 ++ ["dwi"; stem +:+ ".json"])%list.
Proof.
  rewrite in_matching_paths. unfold under_root_matches. split.
  - intros [Hs Hm]. split; [exact Hs |].
    destruct (strip_prefix root p) as [rel|] eqn:Hrel; [| discriminate].
    apply strip_prefix_inv in Hrel as ->.
    apply pattern_sound in Hm as (pre & sub_id & mid & stem & ->).
    now exists pre, sub_id, mid, stem.
  - intros [Hs (pre & sub_id & mid & stem & ->)]. split; [exact Hs |].
    rewrite strip_prefix_app. apply pattern_complete.
Qed.

(** C9.  Every entry below the root whose path is
    [pre/sub-x/mid/dwi/stem.json], for any directories [pre] above the
    subject directory and any directories [mid] between it and [dwi], is
    discovered by the one pattern: with [mid] empty this is the layout
    without sessions, with one directory in [mid] the layout with sessions,
    and every discovered path has this shape. *)
Theorem C9_recursive_discovery (s : fs) (root pre mid : path)
  (sub_id stem : string) (e : entry) :
  s !! (root ++ pre ++ ("sub-" +:+ sub_id) :: mid ++ ["dwi"; stem +:+ ".json"])%list
  = Some e ->
  In (root ++ pre ++ ("sub-" +:+ sub_id) :: mid ++ ["dwi"; stem +:+ ".json"])%list
    (matching_paths root pattern s)
  /\ (forall s0 e0,
        s0 !! (root ++ ["sub-" +:+ sub_id; "dwi"; stem +:+ ".json"])%list = Some e0 ->
        In (root ++ ["sub-" +:+ sub_id; "dwi"; stem +:+ ".json"])%list
          (matching_paths root pattern s0))
  /\ (forall s0 ses e0,
        s0 !! (root ++ ["sub-" +:+ sub_id; ses; "dwi"; stem +:+ ".json"])%list
        = Some e0 ->
        In (root ++ ["sub-" +:+ sub_id; ses; "dwi"; stem +:+ ".json"])%list
          (matching_paths root pattern s0))
  /\ (forall p, In p (matching_paths root pattern s) ->
        exists pre' sub' mid' stem',
          p = (root ++ pre' ++ ("sub-" +:+ sub') :: mid'
                 ++ ["dwi"; stem' +:+ ".json"])%list).
Proof.
  intros Hs. split; [| split; [| split]].
  - eapply matching_paths_complete; eassumption.
  - intros s0 e0 H0.
    exact (matching_paths_complete s0 root [] [] sub_id stem e0 H0).
  - intros s0 ses e0 H0.
    exact (matching_paths_complete s0 root [] [ses] sub_id stem e0 H0).
  - intros p Hp. now apply matching_paths_exact in Hp.
Qed.

(** ** Exit status *)

Section ExitStatus.
Context `{JsonLib}.

Lemma exit_status_no_files (bids_root : path) (fix_ : bool) (s : fs) :
  matching_paths bids_root pattern s = [] ->
  run_script bids_root fix_ s = (1%Z, s, [MsgNoFiles bids_root]).
Proof. intros Hnone. unfold run_script. rewrite main_unfold, Hnone. reflexivity. Qed.

(** With files found, the status is 0 as soon as no call of
    [validate_json] ends in an exception. *)
Lemma exit_status_files (bids_root : path) (fix_ : bool) (s s' : fs)
  (n_valid : nat) (out : list msg) :
  matching_paths bids_root pattern s <> [] ->
  count_valid (matching_paths bids_root pattern s) fix_ 0 s
  = (Ret n_valid, s', out) ->
  exists out', run_script bids_root fix_ s = (0%Z, s', out').
Proof.
  intros Hsome Hloop. unfold run_script. rewrite main_unfold. cbv zeta.
  destruct (matching_paths bids_root pattern s) as [|p files]; [congruence |].
  rewrite Hloop. eauto.
Qed.

Lemma count_valid_returns (files : list path) (fix_ : bool) :
  (forall p s0, In p files ->
     exists b s1 o, validate_json p fix_ s0 = (Ret b, s1, o)) ->
  forall n s, exists n' s' out, count_valid files fix_ n s = (Ret n', s', out).
Proof.
  induction files as [|p files IH]; intros Hall n s.
  - cbn [count_valid]. unfold mret. eauto.
  - cbn [count_valid]. unfold mbind.
    destruct (Hall p s (or_introl eq_refl)) as (b & s1 & o & ->).
    destruct (IH (fun q s0 Hq => Hall q s0 (or_intror Hq))
                (if b then S n else n) s1) as (n' & s' & out & ->).
    eauto.
Qed.

End ExitStatus.

(** ** Running the model

    The converse of [validate_json_validates], and the loop one file at a
    time: they evaluate the program on a concrete tree from the few facts
    that matter (what the file holds, what it parses to). *)

Section Evaluation.
Context `{JsonLib}.

Lemma validates_validate_json (p : path) (fix_ : bool) (s s' : fs)
  (r : res bool) (out : list msg) :
  validates p fix_ s r s' out -> validate_json p fix_ s = (r, s', out).
Proof.
  intros Hv.
  unfold validate_json, try_except, mbind, read_text, py_loads, lift, print,
    mret, raise, write_text.
  destruct Hv; unfold readable_text in *;
    destruct (s !! p) as [[|t [] w]|] eqn:Hp; simplify_eq; simpl;
    try reflexivity;
    repeat match goal with
           | Hl : loads _ = _ |- _ => rewrite Hl; simpl
           | Hg : py_get _ _ = _ |- _ => rewrite Hg; simpl
           | Hd : dict_get _ _ = JStr _ |- _ => rewrite Hd; simpl
           | Hv : in_VALID_DIRECTIONS _ = _ |- _ => rewrite Hv; simpl
           | Hi : infer_direction_from_dir _ _ = _ |- _ =>
               rewrite Hi; simpl
           end;
    try reflexivity.
  - rewrite bool_decide_eq_true_2 by assumption. reflexivity.
  - pose proof (valid_truthy g ltac:(eapply infer_direction_valid; eauto)) as Ht.
    simpl in Ht. rewrite Ht. simpl. rewrite Hp. reflexivity.
  - pose proof (valid_truthy g ltac:(assumption)) as Ht.
    simpl in Ht. rewrite Ht. simpl. rewrite Hp. reflexivity.
Qed.

Lemma count_valid_cons_ret (p : path) (rest : list path) (fix_ : bool)
  (n : nat) (s s1 : fs) (b : bool) (o1 : list msg) :
  validate_json p fix_ s = (Ret b, s1, o1) ->
  count_valid (p :: rest) fix_ n s
  = let '(r, s2, o2) := count_valid rest fix_ (if b then S n else n) s1 in
    (r, s2, (o1 ++ o2)%list).
Proof. intros Hp. cbn [count_valid]. unfold mbind. now rewrite Hp. Qed.

Lemma count_valid_cons_raise (p : path) (rest : list path) (fix_ : bool)
  (n : nat) (s s1 : fs) (e : exn) (o1 : list msg) :
  validate_json p fix_ s = (Raise e, s1, o1) ->
  count_valid (p :: rest) fix_ n s = (Raise e, s1, o1).
Proof. intros Hp. cbn [count_valid]. unfold mbind. now rewrite Hp. Qed.

End Evaluation.

(** * The model at work on the concrete trees *)

Ltac lookup_tree :=
  unfold readable_text, tree_fixed, tree_fixable, tree_array, tree_number,
    tree_hopeless, tree_read_only;
  repeat first [rewrite lookup_insert_eq
               | rewrite lookup_insert_ne by discriminate];
  reflexivity.

Ltac by_eval := vm_compute; reflexivity.

Example loads_doc_dir_pa :
  MiniJson.mini_loads doc_dir_pa = Some (JObj [("dir", JStr "PA")]).
Proof. by_eval. Qed.

Example loads_doc_ped_array :
  MiniJson.mini_loads doc_ped_array
  = Some (JObj [("PhaseEncodingDirection", JArr [])]).
Proof. by_eval. Qed.

Example loads_doc_dir_number :
  MiniJson.mini_loads doc_dir_number = Some (JObj [("dir", JInt 5)]).
Proof. by_eval. Qed.

Example loads_doc_valid :
  MiniJson.mini_loads doc_valid
  = Some (JObj [("PhaseEncodingDirection", JStr "j")]).
Proof. by_eval. Qed.

Example loads_doc_malformed : MiniJson.mini_loads doc_malformed = None.
Proof. by_eval. Qed.

Example loads_dumps_meta_fixed :
  MiniJson.mini_loads (MiniJson.mini_dumps meta_fixed) = Some meta_fixed.
Proof. by_eval. Qed.

Example discovered_tree_fixable :
  matching_paths ["data"] pattern tree_fixable = [file_pa; file_b].
Proof. by_eval. Qed.

Example discovered_tree_fixed :
  matching_paths ["data"] pattern tree_fixed = [file_pa; file_b].
Proof. by_eval. Qed.

Example discovered_tree_array :
  matching_paths ["data"] pattern tree_array = [file_pa; file_b].
Proof. by_eval. Qed.

Example discovered_tree_read_only :
  matching_paths ["data"] pattern tree_read_only = [file_pa; file_b].
Proof. by_eval. Qed.

Example fix_file_pa :
  validate_json (H := mini_json) file_pa true tree_fixable
  = (Ret true, tree_fixed,
     [MsgInvalidOrMissing file_pa JNull; MsgFixed (JStr "j-")]).
Proof.
  apply validates_validate_json.
  apply (V_fixed (H := mini_json) file_pa true tree_fixable
           doc_dir_pa [("dir", JStr "PA")] "j-").
  - lookup_tree.
  - exact loads_doc_dir_pa.
  - reflexivity.
  - reflexivity.
  - reflexivity.
  - apply VALID_DIRECTIONS_elems. tauto.
Qed.

Example malformed_file_b (s : fs) :
  s !! file_b = Some (File doc_malformed true true) ->
  validate_json (H := mini_json) file_b true s
  = (Ret false, s, [MsgInvalidJSON file_b JSONDecodeError]).
Proof.
  intros Hs. apply validates_validate_json.
  apply (V_malformed (H := mini_json) file_b true s doc_malformed).
  - unfold readable_text. now rewrite Hs.
  - exact loads_doc_malformed.
Qed.

Example valid_file_pa_fixed :
  validate_json (H := mini_json) file_pa true tree_fixed
  = (Ret true, tree_fixed, [MsgValid file_pa (JStr "j-")]).
Proof.
  apply (validate_json_valid (H := mini_json) file_pa true tree_fixed
           (MiniJson.mini_dumps meta_fixed) true
           [("dir", JStr "PA"); ("PhaseEncodingDirection", JStr "j-")] "j-").
  - lookup_tree.
  - exact loads_dumps_meta_fixed.
  - reflexivity.
  - apply VALID_DIRECTIONS_elems. tauto.
Qed.

Example run_tree_fixable :
  main (H := mini_json) ["data"] true tree_fixable
  = (Ret tt, tree_fixed,
     [MsgChecking 2 ["data"];
      MsgInvalidOrMissing file_pa JNull; MsgFixed (JStr "j-");
      MsgInvalidJSON file_b JSONDecodeError;
      MsgSummary 1 2; MsgAllUpdated]).
Proof.
  rewrite main_unfold, discovered_tree_fixable. cbv zeta.
  rewrite (count_valid_cons_ret (H := mini_json) _ _ _ _ _ _ _ _ fix_file_pa).
  rewrite (count_valid_cons_ret (H := mini_json) _ _ _ _ _ _ _ _
             (malformed_file_b tree_fixed ltac:(lookup_tree))).
  reflexivity.
Qed.

Example run_tree_fixed :
  main (H := mini_json) ["data"] true tree_fixed
  = (Ret tt, tree_fixed,
     [MsgChecking 2 ["data"];
      MsgValid file_pa (JStr "j-");
      MsgInvalidJSON file_b JSONDecodeError;
      MsgSummary 1 2; MsgAllUpdated]).
Proof.
  rewrite main_unfold, discovered_tree_fixed. cbv zeta.
  rewrite (count_valid_cons_ret (H := mini_json) _ _ _ _ _ _ _ _ valid_file_pa_fixed).
  rewrite (count_valid_cons_ret (H := mini_json) _ _ _ _ _ _ _ _
             (malformed_file_b tree_fixed ltac:(lookup_tree))).
  reflexivity.
Qed.

Example loads_doc_invalid_x :
  MiniJson.mini_loads doc_invalid_x
  = Some (JObj [("PhaseEncodingDirection", JStr "x")]).
Proof. by_eval. Qed.

(** Scenario C of the specification. *)
Example scenario_c :
  validate_json (H := mini_json) file_b true tree_hopeless
  = (Ret false, tree_hopeless,
     [MsgInvalidOrMissing file_b (JStr "x"); MsgCouldNotInfer])
  /\ outcome (H := mini_json) file_b true tree_hopeless
     = Some InvalidUninferable.
Proof.
  assert (Hrun : validate_json (H := mini_json) file_b true tree_hopeless
                 = (Ret false, tree_hopeless,
                    [MsgInvalidOrMissing file_b (JStr "x"); MsgCouldNotInfer])).
  { apply (validate_json_uninferable (H := mini_json) file_b tree_hopeless
             doc_invalid_x true [("PhaseEncodingDirection", JStr "x")]).
    - lookup_tree.
    - exact loads_doc_invalid_x.
    - reflexivity.
    - reflexivity. }
  split; [exact Hrun |]. unfold outcome. now rewrite Hrun.
Qed.

Example array_file_pa (fix_ : bool) :
  validate_json (H := mini_json) file_pa fix_ tree_array
  = (Raise TypeError, tree_array, []).
Proof.
  apply validates_validate_json.
  apply (V_unhashable (H := mini_json) file_pa fix_ tree_array
           doc_ped_array [("PhaseEncodingDirection", JArr [])]).
  - lookup_tree.
  - exact loads_doc_ped_array.
  - reflexivity.
Qed.

Example number_file_pa :
  validate_json (H := mini_json) file_pa true tree_number
  = (Raise AttributeError, tree_number, [MsgInvalidOrMissing file_pa JNull]).
Proof.
  apply validates_validate_json.
  apply (V_hint_fault (H := mini_json) file_pa true tree_number
           doc_dir_number [("dir", JInt 5)]).
  - lookup_tree.
  - exact loads_doc_dir_number.
  - reflexivity.
  - reflexivity.
  - reflexivity.
Qed.

Example read_only_file_pa :
  validate_json (H := mini_json) file_pa true tree_read_only
  = (Raise OSError, tree_read_only, [MsgInvalidOrMissing file_pa JNull]).
Proof.
  apply validates_validate_json.
  apply (V_write_failed (H := mini_json) file_pa true tree_read_only
           doc_dir_pa [("dir", JStr "PA")] "j-").
  - lookup_tree.
  - exact loads_doc_dir_pa.
  - reflexivity.
  - reflexivity.
  - reflexivity.
Qed.

Example valid_file_b :
  validate_json (H := mini_json) file_b true tree_array
  = (Ret true, tree_array, [MsgValid file_b (JStr "j")]).
Proof.
  apply (validate_json_valid (H := mini_json) file_b true tree_array
           doc_valid true [("PhaseEncodingDirection", JStr "j")] "j").
  - lookup_tree.
  - exact loads_doc_valid.
  - reflexivity.
  - apply VALID_DIRECTIONS_elems. tauto.
Qed.

(** C2.  A target field holding an array is not reported as invalid: the
    membership test raises [TypeError], which nothing catches, so the call
    has no outcome; likewise, with fixing enabled, a number under [dir]
    makes the inference raise [AttributeError]. *)
Theorem C2_uncaught_fault :
  validate_json (H := mini_json) file_pa false tree_array
  = (Raise TypeError, tree_array, [])
  /\ outcome (H := mini_json) file_pa false tree_array = None
  /\ validate_json (H := mini_json) file_pa true tree_number
     = (Raise AttributeError, tree_number, [MsgInvalidOrMissing file_pa JNull])
  /\ outcome (H := mini_json) file_pa true tree_number = None.
Proof.
  unfold outcome. rewrite array_file_pa, number_file_pa.
  repeat split; reflexivity.
Qed.

(** C6.  Two files are discovered, yet the run ends with status 1: the
    [TypeError] raised for the first file ends the interpreter before the
    summary. *)
Theorem C6_fault_exit_status :
  matching_paths ["data"] pattern tree_array = [file_pa; file_b]
  /\ run_script (H := mini_json) ["data"] false tree_array
     = (1%Z, tree_array, [MsgChecking 2 ["data"]]).
Proof.
  split; [exact discovered_tree_array |].
  unfold run_script. rewrite main_unfold, discovered_tree_array. cbv zeta.
  rewrite (count_valid_cons_raise (H := mini_json) _ _ _ _ _ _ _ _
             (array_file_pa false)).
  reflexivity.
Qed.

(** C8.  When the corrected file cannot be written, [validate_json] raises
    [OSError]; the run ends there with status 1, and the file that comes
    next is never examined. *)
Theorem C8_write_failure_uncaught :
  validate_json (H := mini_json) file_pa true tree_read_only
  = (Raise OSError, tree_read_only, [MsgInvalidOrMissing file_pa JNull])
  /\ matching_paths ["data"] pattern tree_read_only = [file_pa; file_b]
  /\ run_script (H := mini_json) ["data"] true tree_read_only
     = (1%Z, tree_read_only,
        [MsgChecking 2 ["data"]; MsgInvalidOrMissing file_pa JNull]).
Proof.
  split; [exact read_only_file_pa |].
  split; [exact discovered_tree_read_only |].
  unfold run_script. rewrite main_unfold, discovered_tree_read_only. cbv zeta.
  rewrite (count_valid_cons_raise (H := mini_json) _ _ _ _ _ _ _ _
             read_only_file_pa).
  reflexivity.
Qed.

(** ** The theorems applied to the concrete trees *)



Lemma C4_write_only_when_fixed_witness :
  validate_json (H := mini_json) file_b true tree_array
  = (Ret true, tree_array, [MsgValid file_b (JStr "j")])
  /\ (outcome_of (Ret true) [MsgValid file_b (JStr "j")] <> Some InvalidFixed ->
      tree_array = tree_array).
Proof.
  split; [exact valid_file_b |].
  exact (proj1 (C4_write_only_when_fixed (H := mini_json)
                  file_b true tree_array tree_array _ _ valid_file_b)).
Defined.

Lemma C5_fix_pass_idempotent_witness :
  main (H := mini_json) ["data"] true tree_fixable
  = (Ret tt, tree_fixed,
     [MsgChecking 2 ["data"];
      MsgInvalidOrMissing file_pa JNull; MsgFixed (JStr "j-");
      MsgInvalidJSON file_b JSONDecodeError;
      MsgSummary 1 2; MsgAllUpdated])
  /\ main (H := mini_json) ["data"] true tree_fixed
     = (Ret tt, tree_fixed,
        [MsgChecking 2 ["data"];
         MsgValid file_pa (JStr "j-");
         MsgInvalidJSON file_b JSONDecodeError;
         MsgSummary 1 2; MsgAllUpdated])
  /\ tree_fixed = tree_fixed
  /\ forall p, target_field (H := mini_json) tree_fixed p
               = target_field (H := mini_json) tree_fixed p.
Proof.
  split; [exact run_tree_fixable |]. split; [exact run_tree_fixed |].
  pose proof (C5_fix_pass_idempotent (H := mini_json)
                ["data"] tree_fixable tree_fixed tree_fixed _ _ _ _
                run_tree_fixable run_tree_fixed)
    as (Hsame & Hfield & _).
  split; [exact Hsame | exact Hfield].
Defined.

Lemma unparsable_file_b (text : string) :
  readable_text tree_fixable file_b = Some text ->
  MiniJson.mini_loads text = None.
Proof.
  assert (Hb : readable_text tree_fixable file_b = Some doc_malformed)
    by lookup_tree.
  rewrite Hb. intros [= <-]. exact loads_doc_malformed.
Qed.

Lemma C7_parse_error_is_local_witness :
  (forall text,
     readable_text tree_fixable file_b = Some text ->
     MiniJson.mini_loads text = None)
  /\ exists e,
      validate_json (H := mini_json) file_b true tree_fixable
      = (Ret false, tree_fixable, [MsgInvalidJSON file_b e])
      /\ outcome (H := mini_json) file_b true tree_fixable
         = Some ParseError
      /\ forall rest n_valid,
          count_valid (H := mini_json) (file_b :: rest) true n_valid
            tree_fixable
          = let '(r, s', out) :=
              count_valid (H := mini_json) rest true n_valid tree_fixable in
            (r, s', MsgInvalidJSON file_b e :: out).
Proof.
  split; [exact unparsable_file_b |].
  exact (C7_parse_error_is_local (H := mini_json)
           file_b true tree_fixable unparsable_file_b).
Defined.

Lemma lookup_file_b_tree_array :
  tree_array !! (["data"] ++ [] ++ ("sub-" +:+ "02") :: ["ses-01"]
                   ++ ["dwi"; "sub-02_dwi" +:+ ".json"])%list
  = Some (File doc_valid true true).
Proof. change (tree_array !! file_b = Some (File doc_valid true true)). lookup_tree. Qed.

Lemma C9_recursive_discovery_witness :
  tree_array !! (["data"] ++ [] ++ ("sub-" +:+ "02") :: ["ses-01"]
                   ++ ["dwi"; "sub-02_dwi" +:+ ".json"])%list
  = Some (File doc_valid true true)
  /\ In (["data"] ++ [] ++ ("sub-" +:+ "02") :: ["ses-01"]
           ++ ["dwi"; "sub-02_dwi" +:+ ".json"])%list
       (matching_paths ["data"] pattern tree_array).
Proof.
  split; [exact lookup_file_b_tree_array |].
  exact (proj1 (C9_recursive_discovery tree_array ["data"] [] ["ses-01"]
                  "02" "sub-02_dwi" _ lookup_file_b_tree_array)).
Defined.

Lemma C10_inferred_direction_valid_witness :
  infer_direction_from_dir (JObj [("dir", JStr "PA")]) file_pa = Ret (Some "j-")
  /\ (Some "j-" = None
      \/ exists g, Some "j-" = Some g /\ g ∈ VALID_DIRECTIONS).
Proof.
  split; [reflexivity |].
  exact (proj1 (C10_inferred_direction_valid (H := mini_json)
                  (JObj [("dir", JStr "PA")]) file_pa (Some "j-") eq_refl)).
Defined.

(** * Further properties of the program *)

Section ReturnValue.
Context `{JsonLib}.

Lemma dict_get_str_lookup (d : dict) (k g : string) :
  dict_get d k = JStr g <-> dict_lookup k d = Some (JStr g).
Proof.
  unfold dict_get. destruct (dict_lookup k d); split; congruence.
Qed.

Lemma has_valid_field_ext (s1 s2 : fs) (p : path) :
  s1 !! p = s2 !! p -> has_valid_field s1 p = has_valid_field s2 p.
Proof.
  intros Heq. unfold has_valid_field, target_field, readable_text.
  now rewrite Heq.
Qed.

Lemma has_valid_field_spec (s : fs) (p : path) :
  has_valid_field s p = true <->
  exists text d g,
    readable_text s p = Some text /\ loads text = Some (JObj d)
    /\ dict_lookup target d = Some (JStr g) /\ g ∈ VALID_DIRECTIONS.
Proof.
  unfold has_valid_field, target_field. split.
  - destruct (readable_text s p) as [text|]; [| discriminate].
    destruct (loads text) as [[| | | | | |d]|] eqn:Hl; try discriminate.
    destruct (dict_lookup target d) as [[| | | |g| |]|] eqn:Hd;
      try discriminate.
    intros Hg. apply bool_decide_eq_true in Hg.
    exists text, d, g.
    split; [reflexivity |]. split; [exact Hl |]. split; [exact Hd | exact Hg].
  - intros (text & d & g & -> & -> & -> & Hg). now apply bool_decide_eq_true.
Qed.

Lemma invalid_field_not_valid (s : fs) (p : path) (text : string) (d : dict) :
  readable_text s p = Some text -> loads text = Some (JObj d) ->
  in_VALID_DIRECTIONS (dict_get d target) = Ret false ->
  has_valid_field s p = false.
Proof.
  intros Hr Hl Hv. unfold has_valid_field, target_field. rewrite Hr, Hl.
  unfold dict_get in Hv.
  destruct (dict_lookup target d) as [[| | | |g| |]|]; try reflexivity.
  simpl in Hv. congruence.
Qed.

Lemma validate_json_returns_validity (p : path) (fix_ : bool) (s s' : fs)
  (b : bool) (out : list msg) :
  validate_json p fix_ s = (Ret b, s', out) -> b = has_valid_field s' p.
Proof.
  intros Hrun. pose proof Hrun as Hv. apply validate_json_validates in Hv.
  inversion Hv; subst.
  - unfold has_valid_field, target_field.
    match goal with Hr : readable_text _ _ = None |- _ => now rewrite Hr end.
  - unfold has_valid_field, target_field.
    match goal with
    | Hr : readable_text _ _ = Some _, Hl : loads _ = None |- _ =>
        now rewrite Hr, Hl
    end.
  - symmetry. apply has_valid_field_spec.
    eexists _, _, _. repeat split; try eassumption.
    now apply dict_get_str_lookup.
  - symmetry. eapply invalid_field_not_valid; eassumption.
  - symmetry. eapply invalid_field_not_valid; eassumption.
  - destruct (fixed_then_valid p true true s _ _ _ Hrun eq_refl)
      as (g' & Hg' & Hfield & _).
    unfold has_valid_field. rewrite Hfield. symmetry.
    now apply bool_decide_eq_true.
Qed.

(** X1.  The value [validate_json] returns tells what is on disk when it
    returns: it is [True] exactly when the file then holds a JSON object
    whose target field is one of the six directions (it was valid, or it
    has just been fixed), and [False] exactly when it does not. *)
Theorem X1_return_value_is_validity_on_disk (p : path) (fix_ : bool)
  (s s' : fs) (b : bool) (out : list msg) :
  validate_json p fix_ s = (Ret b, s', out) ->
  b = has_valid_field s' p
  /\ (b = true <->
      exists text d g,
        readable_text s' p = Some text /\ loads text = Some (JObj d)
        /\ dict_lookup target d = Some (JStr g) /\ g ∈ VALID_DIRECTIONS).
Proof.
  intros Hrun. pose proof (validate_json_returns_validity _ _ _ _ _ _ Hrun) as Hb.
  split; [exact Hb |]. rewrite Hb. apply has_valid_field_spec.
Qed.

(** X5.  A file is reported Valid exactly when it can be read, parses to a
    JSON object, and the value under the target key is a string equal to
    one of the six directions; the fix flag plays no part.  A missing key,
    [null], another spelling or another type is never Valid. *)
Theorem X5_valid_outcome_iff (p : path) (fix_ : bool) (s : fs) :
  outcome p fix_ s = Some Valid <->
  exists text d g,
    readable_text s p = Some text /\ loads text = Some (JObj d)
    /\ dict_lookup target d = Some (JStr g) /\ g ∈ VALID_DIRECTIONS.
Proof.
  split.
  - unfold outcome.
    destruct (validate_json p fix_ s) as [[r s'] out] eqn:Hrun.
    intros Hout. apply validate_json_validates in Hrun.
    destruct Hrun; simpl in Hout; try discriminate.
    eexists _, _, _. repeat split; try eassumption.
    now apply dict_get_str_lookup.
  - intros (text & d & g & Hr & Hl & Hd & Hg).
    unfold readable_text in Hr.
    destruct (s !! p) as [[|t [] w]|] eqn:Hp; try discriminate.
    injection Hr as ->. apply dict_get_str_lookup in Hd.
    unfold outcome.
    now rewrite (validate_json_valid p fix_ s text w d g Hp Hl Hd Hg).
Qed.

End ReturnValue.

Section WholeRun.
Context `{JsonLib}.

Lemma validate_json_no_fix_unchanged (p : path) (s s' : fs) (r : res bool)
  (out : list msg) :
  validate_json p false s = (r, s', out) -> s' = s.
Proof.
  intros Hrun. apply validate_json_validates in Hrun.
  destruct Hrun; congruence.
Qed.

Lemma count_valid_no_fix_unchanged (files : list path) :
  forall n s r s' out,
    count_valid files false n s = (r, s', out) -> s' = s.
Proof.
  induction files as [|p files IH]; intros n s r s' out Hrun.
  - cbn [count_valid] in Hrun. unfold mret in Hrun. now simplify_eq.
  - cbn [count_valid] in Hrun. unfold mbind in Hrun.
    destruct (validate_json p false s) as [[[b|e] sa] oa] eqn:Hp;
      apply validate_json_no_fix_unchanged in Hp as ->.
    + destruct (count_valid files false _ s) as [[r2 s2] o2] eqn:Hrest.
      simplify_eq. eapply IH; eassumption.
    + now simplify_eq.
Qed.

Lemma count_valid_other (q : path) (files : list path) (fix_ : bool) :
  ~ In q files ->
  forall n s r s' out,
    count_valid files fix_ n s = (r, s', out) -> s' !! q = s !! q.
Proof.
  induction files as [|p files IH]; intros Hq n s r s' out Hrun.
  - cbn [count_valid] in Hrun. unfold mret in Hrun. now simplify_eq.
  - cbn [count_valid] in Hrun. unfold mbind in Hrun.
    assert (Hne : q <> p) by (intros ->; apply Hq; now left).
    assert (Hrest : ~ In q files) by (intros Hin; apply Hq; now right).
    destruct (validate_json p fix_ s) as [[[b|e] sa] oa] eqn:Hp.
    + destruct (count_valid files fix_ _ sa) as [[r2 s2] o2] eqn:Hc.
      simplify_eq. rewrite (IH Hrest _ _ _ _ _ Hc).
      eapply validate_json_other; eassumption.
    + simplify_eq. eapply validate_json_other; eassumption.
Qed.

(** The number the loop returns, for files that are pairwise distinct. *)
Lemma count_valid_counts (files : list path) (fix_ : bool) :
  List.NoDup files ->
  forall n s n' s' out,
    count_valid files fix_ n s = (Ret n', s', out) ->
    n' = (n + length (List.filter (has_valid_field s') files))%nat.
Proof.
  induction 1 as [|p files Hp Hnd IH]; intros n s n' s' out Hrun.
  - cbn [count_valid] in Hrun. unfold mret in Hrun. simplify_eq. simpl. lia.
  - cbn [count_valid] in Hrun. unfold mbind in Hrun.
    destruct (validate_json p fix_ s) as [[[b|e] sa] oa] eqn:Hv;
      [| discriminate].
    destruct (count_valid files fix_ _ sa) as [[r2 s2] o2] eqn:Hc.
    simplify_eq.
    pose proof (validate_json_returns_validity _ _ _ _ _ _ Hv) as Hb.
    rewrite (has_valid_field_ext sa s' p) in Hb
      by (symmetry; eapply count_valid_other; eassumption).
    rewrite (IH _ _ _ _ _ Hc). cbn [List.filter]. rewrite <- Hb.
    destruct b; cbn [length]; lia.
Qed.

Lemma matching_paths_NoDup (root : path) (pats : list string) (s : fs) :
  List.NoDup (matching_paths root pats s).
Proof.
  unfold matching_paths. apply List.NoDup_filter, NoDup_ListNoDup.
  apply NoDup_elements.
Qed.

(** X2.  When [main] returns, the summary line it printed reads [X/N] with
    [N] the number of files discovered and [X] the number of discovered
    files that hold a valid direction on disk at the end of the run (valid
    from the start, or fixed); so [X <= N]. *)
Theorem X2_summary_counts_valid_files (bids_root : path) (fix_ : bool)
  (s s' : fs) (out : list msg) :
  main bids_root fix_ s = (Ret tt, s', out) ->
  exists lines,
    out = (MsgChecking (length (matching_paths bids_root pattern s)) bids_root
           :: lines
           ++ MsgSummary
                (length (List.filter (has_valid_field s')
                           (matching_paths bids_root pattern s)))
                (length (matching_paths bids_root pattern s))
              :: (if fix_ then [MsgAllUpdated] else []))%list
    /\ length (List.filter (has_valid_field s')
                 (matching_paths bids_root pattern s))
       <= length (matching_paths bids_root pattern s).
Proof.
  rewrite main_unfold. cbv zeta.
  pose proof (matching_paths_NoDup bids_root pattern s) as Hnd.
  destruct (matching_paths bids_root pattern s) as [|p files] eqn:Hfiles;
    [discriminate |].
  destruct (count_valid (p :: files) fix_ 0 s) as [[[n|e] sa] oa] eqn:Hc;
    [| discriminate].
  intros Hrun. simplify_eq.
  rewrite (count_valid_counts _ _ Hnd _ _ _ _ _ Hc). cbn [Nat.add].
  exists oa. split; [reflexivity |]. apply List.filter_length_le.
Qed.

(** X3.  Without [--fix], [main] leaves the file system exactly as it
    found it, however the run ends. *)
Theorem X3_validation_only_run_writes_nothing (bids_root : path)
  (s s' : fs) (r : res unit) (out : list msg) :
  main bids_root false s = (r, s', out) -> s' = s.
Proof.
  rewrite main_unfold. cbv zeta.
  destruct (matching_paths bids_root pattern s) as [|p files];
    [intros; now simplify_eq |].
  destruct (count_valid (p :: files) false 0 s) as [[[n|e] sa] oa] eqn:Hc;
    intros; simplify_eq; eapply count_valid_no_fix_unchanged; eassumption.
Qed.

(** X4.  A run of [main] neither creates nor removes an entry, and an
    entry that was not discovered is left exactly as it was: only the
    discovered files can be rewritten. *)
Theorem X4_only_discovered_files_change (bids_root : path) (fix_ : bool)
  (s s' : fs) (r : res unit) (out : list msg) :
  main bids_root fix_ s = (r, s', out) ->
  dom s' = dom s
  /\ forall q, ~ In q (matching_paths bids_root pattern s) ->
       s' !! q = s !! q.
Proof.
  intros Hrun. split; [eapply main_dom; eassumption |].
  intros q Hq. rewrite main_unfold in Hrun. cbv zeta in Hrun.
  destruct (matching_paths bids_root pattern s) as [|p files];
    [now simplify_eq |].
  destruct (count_valid (p :: files) fix_ 0 s) as [[[n|e] sa] oa] eqn:Hc;
    simplify_eq; eapply count_valid_other; eassumption.
Qed.

End WholeRun.

(** ** The hint *)

Lemma infer_fallback (d : dict) (p : path) :
  truthy (dict_get d "dir") = false ->
  infer_direction_from_dir (JObj d) p
  = Ret (infer_from_name (upper (path_name p))).
Proof.
  intros Hf. unfold infer_direction_from_dir, hint_name, py_or. simpl.
  now rewrite Hf.
Qed.

(** X6.  For hints written in ASCII: the [dir] key decides the hint
    whenever it holds a non-empty string, whatever the file is called; when
    the key is missing or holds [null], [false], zero, an empty string,
    list or object, the file name is used instead and nothing is raised.
    Any other value of [dir] makes the inference raise [AttributeError]. *)
Theorem X6_dir_key_before_file_name (d : dict) (p : path) (v : json) :
  dict_get d "dir" = v ->
  (forall t, v = JStr t -> t <> "" -> is_ascii t = true ->
     infer_direction_from_dir (JObj d) p = Ret (infer_from_name (upper t)))
  /\ (In v [JNull; JBool false; JInt 0; JFloat (S754_zero false);
            JFloat (S754_zero true); JStr ""; JArr []; JObj []] ->
      is_ascii (path_name p) = true ->
      infer_direction_from_dir (JObj d) p
      = Ret (infer_from_name (upper (path_name p))))
  /\ (dict_lookup "dir" d = None ->
      is_ascii (path_name p) = true ->
      infer_direction_from_dir (JObj d) p
      = Ret (infer_from_name (upper (path_name p))))
  /\ (truthy v = true -> (forall t, v <> JStr t) ->
      infer_direction_from_dir (JObj d) p = Raise AttributeError).
Proof.
  intros Hv. split; [| split; [| split]].
  - intros t -> Ht _.
    unfold infer_direction_from_dir, hint_name, py_or. simpl. rewrite Hv.
    simpl. apply String.eqb_neq in Ht. now rewrite Ht.
  - intros Hin _. apply infer_fallback. rewrite Hv. simpl in Hin.
    repeat (destruct Hin as [<-|Hin]; [reflexivity |]). destruct Hin.
  - intros Hnone _. apply infer_fallback. unfold dict_get. now rewrite Hnone.
  - intros Ht Hns.
    unfold infer_direction_from_dir, hint_name, py_or. simpl. rewrite Hv, Ht.
    destruct v; try reflexivity. now destruct (Hns s).
Qed.

Lemma X6_dir_key_before_file_name_witness :
  dict_get [("dir", JStr "PA")] "dir" = JStr "PA"
  /\ is_ascii "PA" = true
  /\ infer_direction_from_dir (JObj [("dir", JStr "PA")])
       ["data"; "sub-01"; "dwi"; "sub-01_acq-AP_dwi.json"]
     = Ret (infer_from_name (upper "PA")).
Proof.
  split; [reflexivity |]. split; [reflexivity |].
  apply (proj1 (X6_dir_key_before_file_name [("dir", JStr "PA")]
                  ["data"; "sub-01"; "dwi"; "sub-01_acq-AP_dwi.json"]
                  (JStr "PA") eq_refl) "PA" eq_refl);
    [discriminate | reflexivity].
Defined.

(** X7.  The letter case of an ASCII hint does not matter: if the hint is
    written in ASCII, contains one of the six codes written in any mix of
    upper and lower case, and its upper-cased form contains none of the
    other five codes, the inference returns the direction of that code. *)
Theorem X7_hint_case_is_ignored (d : dict) (p : path)
  (code dir sub tok : string) :
  In (code, dir) direction_codes ->
  upper sub = code ->
  py_or (dict_get d "dir") (JStr (path_name p)) = JStr tok ->
  is_ascii tok = true ->
  is_substring sub tok ->
  (forall c, In c (map fst direction_codes) -> c <> code ->
     ~ is_substring c (upper tok)) ->
  infer_direction_from_dir (JObj d) p = Ret (Some dir).
Proof.
  intros Hin Hup Htok _ Hsub Hothers.
  unfold infer_direction_from_dir, hint_name. simpl. rewrite Htok. simpl.
  assert (Hcode : contains code (upper tok) = true).
  { apply contains_spec. rewrite <- Hup. now apply is_substring_upper. }
  assert (Hc : forall c, In c (map fst direction_codes) -> c <> code ->
                         contains c (upper tok) = false).
  { intros c Hc Hne. destruct (contains c (upper tok)) eqn:E; [| reflexivity].
    apply contains_spec in E. now destruct (Hothers c Hc Hne). }
  unfold infer_from_name. simpl in Hin, Hc.
  destruct Hin as [Hin|[Hin|[Hin|[Hin|[Hin|[Hin|[]]]]]]];
    injection Hin as <- <-; rewrite Hcode;
    rewrite ?Hc by (first [tauto | discriminate]); reflexivity.
Qed.

Lemma X7_hint_case_is_ignored_witness :
  In ("LR", "i-") direction_codes
  /\ upper "lr" = "LR"
  /\ py_or (dict_get [("dir", JStr "dir-lr")] "dir")
       (JStr (path_name ["sub-01"; "dwi"; "x.json"])) = JStr "dir-lr"
  /\ is_ascii "dir-lr" = true
  /\ is_substring "lr" "dir-lr"
  /\ infer_direction_from_dir (JObj [("dir", JStr "dir-lr")])
       ["sub-01"; "dwi"; "x.json"] = Ret (Some "i-").
Proof.
  assert (Hin : In ("LR", "i-") direction_codes) by (simpl; tauto).
  assert (Hsub : is_substring "lr" "dir-lr") by (exists "dir-", ""; reflexivity).
  split; [exact Hin |]. split; [reflexivity |]. split; [reflexivity |].
  split; [reflexivity |]. split; [exact Hsub |].
  apply (X7_hint_case_is_ignored [("dir", JStr "dir-lr")]
           ["sub-01"; "dwi"; "x.json"] "LR" "i-" "lr" "dir-lr"
           Hin eq_refl eq_refl eq_refl Hsub).
  intros c Hc Hne Hcontains. apply contains_spec in Hcontains.
  simpl in Hc.
  destruct Hc as [<-|[<-|[<-|[<-|[<-|[<-|[]]]]]]];
    first [discriminate Hcontains | now apply Hne].
Defined.

(** ** Rewriting, faults and the exit status *)

Section Faults.
Context `{JsonLib}.

Lemma dict_set_key_order (d : dict) (k : string) (v : json) :
  map fst (dict_set d k v)
  = if bool_decide (k ∈ map fst d) then map fst d else (map fst d ++ [k])%list.
Proof. apply MiniJsonFacts.dict_set_keys. Qed.

(** X8.  A fix keeps the keys of the document in their order: the
    document written has the keys of the document read, in the same order,
    with the target key in its old place when it was present and added at
    the end when it was not. *)
Theorem X8_fix_keeps_key_order (p : path) (fix_ : bool) (s s' : fs)
  (r : res bool) (out : list msg) :
  validate_json p fix_ s = (r, s', out) ->
  outcome_of r out = Some InvalidFixed ->
  exists text d text' d',
    readable_text s p = Some text /\ loads text = Some (JObj d)
    /\ readable_text s' p = Some text' /\ loads text' = Some (JObj d')
    /\ map fst d'
       = if bool_decide (target ∈ map fst d) then map fst d
         else (map fst d ++ [target])%list.
Proof.
  intros Hrun Hout. apply validate_json_validates in Hrun.
  destruct Hrun; simpl in Hout; try discriminate.
  exists text, d, (dumps (JObj (dict_set d target (JStr g)))),
    (dict_set d target (JStr g)).
  split.
  { unfold readable_text.
    match goal with Hs : _ !! _ = Some _ |- _ => now rewrite Hs end. }
  split; [assumption |].
  split; [unfold readable_text; now rewrite lookup_insert_eq |].
  split; [eapply loads_dumps_setitem; eassumption |].
  apply dict_set_key_order.
Qed.

Lemma infer_direction_raises_inv (d : dict) (p : path) (e : exn) :
  infer_direction_from_dir (JObj d) p = Raise e ->
  truthy (dict_get d "dir") = true /\ forall t, dict_get d "dir" <> JStr t.
Proof.
  unfold infer_direction_from_dir, hint_name, py_or. simpl.
  destruct (truthy (dict_get d "dir")) eqn:Ht; [| discriminate].
  intros Hr. split; [reflexivity |]. intros t Heq. rewrite Heq in Hr.
  discriminate.
Qed.

(** X9.  Two exceptions leave [validate_json] before it has printed
    anything, with or without fixing, and leave the file system as it was:
    [AttributeError] when the file is read and its document is not a JSON
    object, [TypeError] when the document is an object whose target field
    holds a list or an object. *)
Theorem X9_exceptions_of_validate_json (p : path) (fix_ : bool) (s : fs)
  (text : string) (meta : json) :
  readable_text s p = Some text ->
  loads text = Some meta ->
  ((forall d, meta <> JObj d) ->
   validate_json p fix_ s = (Raise AttributeError, s, []))
  /\ (forall d, meta = JObj d ->
      (exists l, dict_get d target = JArr l)
      \/ (exists m, dict_get d target = JObj m) ->
      validate_json p fix_ s = (Raise TypeError, s, [])).
Proof.
  intros Hread Hloads. split.
  - intros Hno. apply validates_validate_json.
    apply (V_not_a_dict p fix_ s text meta Hread Hloads).
    destruct meta as [| | | | | |d0]; try reflexivity. now destruct (Hno d0).
  - intros d -> Hped. apply validates_validate_json.
    apply (V_unhashable p fix_ s text d Hread Hloads).
    destruct Hped as [[l ->]|[m ->]]; reflexivity.
Qed.

Lemma validate_json_raises_Exception (p : path) (fix_ : bool) (s s' : fs)
  (e : exn) (out : list msg) :
  validate_json p fix_ s = (Raise e, s', out) -> exit_status (Raise e) = 1%Z.
Proof.
  intros Hrun. apply validate_json_validates in Hrun.
  inversion Hrun; reflexivity.
Qed.

Lemma count_valid_raises_Exception (files : list path) (fix_ : bool) :
  forall n s e s' out,
    count_valid files fix_ n s = (Raise e, s', out) ->
    exit_status (Raise e) = 1%Z.
Proof.
  induction files as [|p files IH]; intros n s e s' out Hrun.
  - cbn [count_valid] in Hrun. unfold mret in Hrun. discriminate.
  - cbn [count_valid] in Hrun. unfold mbind in Hrun.
    destruct (validate_json p fix_ s) as [[[b|e0] sa] oa] eqn:Hp.
    + destruct (count_valid files fix_ _ sa) as [[r2 s2] o2] eqn:Hc.
      simplify_eq. eapply IH; eassumption.
    + simplify_eq. eapply validate_json_raises_Exception; eassumption.
Qed.

(** X10.  The exit status of a run is 0 or 1.  It is 1 with nothing but
    the No-files line printed and nothing written when no file is
    discovered; otherwise it is 0 exactly when no call of [validate_json]
    ended in an exception, that is when the loop over the discovered files
    ran to its end. *)
Theorem X10_exit_status (bids_root : path) (fix_ : bool) (s s' : fs)
  (code : Z) (out : list msg) :
  run_script bids_root fix_ s = (code, s', out) ->
  (code = 0%Z \/ code = 1%Z)
  /\ (matching_paths bids_root pattern s = [] ->
      code = 1%Z /\ s' = s /\ out = [MsgNoFiles bids_root])
  /\ (code = 0%Z <->
      matching_paths bids_root pattern s <> []
      /\ exists n_valid lines,
          count_valid (matching_paths bids_root pattern s) fix_ 0 s
          = (Ret n_valid, s', lines)).
Proof.
  unfold run_script. rewrite main_unfold. cbv zeta.
  destruct (matching_paths bids_root pattern s) as [|p files] eqn:Hfiles.
  - intros [= <- <- <-]. split; [now right |]. split; [easy |].
    split; [discriminate | now intros [? _]].
  - destruct (count_valid (p :: files) fix_ 0 s) as [[[n|e] sa] oa] eqn:Hc.
    + intros [= <- <- <-]. split; [now left |]. split; [discriminate |].
      split; [| reflexivity]. intros _. split; [discriminate | eauto].
    + rewrite (count_valid_raises_Exception _ _ _ _ _ _ _ Hc).
      intros [= <- <- <-].
      split; [now right |]. split; [discriminate |].
      split; [discriminate |]. intros [_ (n & lines & Hn)]. discriminate.
Qed.

End Faults.

(** ** Discovery *)

(** X11.  Every discovered path names an existing entry and is listed
    once, and an entry fewer than three levels below the root is never
    discovered: a root that is itself the subject directory, with [dwi]
    directly below it, yields no file. *)
Theorem X11_discovery_needs_subject_below_root (s : fs) (root : path) :
  List.NoDup (matching_paths root pattern s)
  /\ (forall p, In p (matching_paths root pattern s) -> is_Some (s !! p))
  /\ (forall rel, length rel < 3 ->
        ~ In (root ++ rel)%list (matching_paths root pattern s))
  /\ (forall name, ~ In (root ++ ["dwi"; name])%list
                       (matching_paths root pattern s)).
Proof.
  assert (Hshort : forall rel, length rel < 3 ->
            ~ In (root ++ rel)%list (matching_paths root pattern s)).
  { intros rel Hlen Hin. apply matching_paths_exact in Hin as [_ Hshape].
    destruct Hshape as (pre & sub_id & mid & stem & Heq).
    apply app_inv_head in Heq. subst rel.
    rewrite !length_app in Hlen. simpl in Hlen. rewrite length_app in Hlen.
    simpl in Hlen. lia. }
  split; [apply matching_paths_NoDup |].
  split; [intros p Hp; now apply matching_paths_exact in Hp |].
  split; [exact Hshort |].
  intros name. apply Hshort. simpl. lia.
Qed.

(** ** The outcomes, and what a run does to valid files *)

Section OutcomeTable.
Context `{JsonLib}.

Lemma outcome_of_validates (p : path) (fix_ : bool) (s s' : fs)
  (r : res bool) (out : list msg) :
  validates p fix_ s r s' out -> outcome p fix_ s = outcome_of r out.
Proof.
  intros Hv. unfold outcome. now rewrite (validates_validate_json _ _ _ _ _ _ Hv).
Qed.

(** X12.  What each of the other four outcomes tells.  Parse-Error occurs
    exactly when the file cannot be read or its text does not parse.
    Invalid-Unfixed occurs only when fixing is off, the document is an
    object and its target value is not a valid direction (and not a list or
    object).  Invalid-Uninferable occurs only when the same holds with
    fixing on and the inference returns nothing.  Invalid-Fixed occurs only
    when the same holds with fixing on, the inference returns a direction
    and the file is writable. *)
Theorem X12_outcome_table (p : path) (fix_ : bool) (s : fs) :
  (outcome p fix_ s = Some ParseError <->
   forall text, readable_text s p = Some text -> loads text = None)
  /\ (outcome p fix_ s = Some InvalidUnfixed ->
      fix_ = false
      /\ exists text d,
          readable_text s p = Some text /\ loads text = Some (JObj d)
          /\ in_VALID_DIRECTIONS (dict_get d target) = Ret false)
  /\ (outcome p fix_ s = Some InvalidUninferable ->
      fix_ = true
      /\ exists text d,
          readable_text s p = Some text /\ loads text = Some (JObj d)
          /\ in_VALID_DIRECTIONS (dict_get d target) = Ret false
          /\ infer_direction_from_dir (JObj d) p = Ret None)
  /\ (outcome p fix_ s = Some InvalidFixed ->
      fix_ = true
      /\ exists text d g,
          s !! p = Some (File text true true) /\ loads text = Some (JObj d)
          /\ in_VALID_DIRECTIONS (dict_get d target) = Ret false
          /\ infer_direction_from_dir (JObj d) p = Ret (Some g)).
Proof.
  assert (Hfwd : forall o, outcome p fix_ s = Some o ->
            exists r s' out, validates p fix_ s r s' out
                             /\ outcome_of r out = Some o).
  { intros o. unfold outcome.
    destruct (validate_json p fix_ s) as [[r s'] out] eqn:Hrun.
    intros Ho. apply validate_json_validates in Hrun. eauto. }
  split; [split | split; [| split]].
  - intros Ho. destruct (Hfwd _ Ho) as (r & s' & out & Hv & Hout).
    destruct Hv; simpl in Hout; try discriminate; intros t Ht; congruence.
  - intros Hbad.
    destruct (validate_json_parse_error p fix_ s Hbad) as [e He].
    unfold outcome. now rewrite He.
  - intros Ho. destruct (Hfwd _ Ho) as (r & s' & out & Hv & Hout).
    destruct Hv; simpl in Hout; try discriminate. eauto 10.
  - intros Ho. destruct (Hfwd _ Ho) as (r & s' & out & Hv & Hout).
    destruct Hv; simpl in Hout; try discriminate. eauto 10.
  - intros Ho. destruct (Hfwd _ Ho) as (r & s' & out & Hv & Hout).
    destruct Hv; simpl in Hout; try discriminate. eauto 10.
Qed.

Lemma validate_json_keeps_valid (p q : path) (fix_ : bool) (s s' : fs)
  (r : res bool) (out : list msg) :
  validate_json p fix_ s = (r, s', out) ->
  has_valid_field s q = true -> has_valid_field s' q = true.
Proof.
  intros Hrun Hq. destruct (decide (q = p)) as [->|Hne].
  - pose proof Hrun as Hv. apply validate_json_validates in Hv.
    destruct Hv; try assumption.
    destruct (fixed_then_valid p fix_ true s _ _ _ Hrun eq_refl)
      as (g' & Hg' & Hfield & _).
    unfold has_valid_field. rewrite Hfield. now apply bool_decide_eq_true.
  - rewrite <- Hq. apply has_valid_field_ext.
    eapply validate_json_other; eassumption.
Qed.

Lemma count_valid_keeps_valid (q : path) (files : list path) (fix_ : bool) :
  forall n s r s' out,
    count_valid files fix_ n s = (r, s', out) ->
    has_valid_field s q = true -> has_valid_field s' q = true.
Proof.
  induction files as [|p files IH]; intros n s r s' out Hrun Hq.
  - cbn [count_valid] in Hrun. unfold mret in Hrun. now simplify_eq.
  - cbn [count_valid] in Hrun. unfold mbind in Hrun.
    destruct (validate_json p fix_ s) as [[[b|e] sa] oa] eqn:Hp.
    + destruct (count_valid files fix_ _ sa) as [[r2 s2] o2] eqn:Hc.
      simplify_eq. eapply IH; [exact Hc |].
      eapply validate_json_keeps_valid; eassumption.
    + simplify_eq. eapply validate_json_keeps_valid; eassumption.
Qed.

(** X13.  A run never spoils a file: every file, discovered or not, that
    held a valid direction before [main] ran holds one afterwards, however
    the run ends. *)
Theorem X13_valid_files_stay_valid (bids_root : path) (fix_ : bool)
  (s s' : fs) (r : res unit) (out : list msg) (q : path) :
  main bids_root fix_ s = (r, s', out) ->
  has_valid_field s q = true ->
  has_valid_field s' q = true.
Proof.
  rewrite main_unfold. cbv zeta.
  destruct (matching_paths bids_root pattern s) as [|p files];
    [intros; now simplify_eq |].
  destruct (count_valid (p :: files) fix_ 0 s) as [[[n|e] sa] oa] eqn:Hc;
    intros; simplify_eq; eapply count_valid_keeps_valid; eassumption.
Qed.

End OutcomeTable.


(** ** The further properties applied to the concrete trees *)

Lemma X1_return_value_is_validity_on_disk_witness :
  validate_json (H := mini_json) file_b true tree_array
  = (Ret true, tree_array, [MsgValid file_b (JStr "j")])
  /\ true = has_valid_field (H := mini_json) tree_array file_b.
Proof.
  split; [exact valid_file_b |].
  exact (proj1 (X1_return_value_is_validity_on_disk (H := mini_json)
                  file_b true tree_array tree_array true _ valid_file_b)).
Defined.

Lemma X2_summary_counts_valid_files_witness :
  main (H := mini_json) ["data"] true tree_fixable
  = (Ret tt, tree_fixed,
     [MsgChecking 2 ["data"];
      MsgInvalidOrMissing file_pa JNull; MsgFixed (JStr "j-");
      MsgInvalidJSON file_b JSONDecodeError;
      MsgSummary 1 2; MsgAllUpdated])
  /\ exists lines,
      [MsgChecking 2 ["data"];
       MsgInvalidOrMissing file_pa JNull; MsgFixed (JStr "j-");
       MsgInvalidJSON file_b JSONDecodeError;
       MsgSummary 1 2; MsgAllUpdated]
      = (MsgChecking (length (matching_paths ["data"] pattern tree_fixable))
           ["data"]
         :: lines
         ++ MsgSummary
              (length (List.filter (has_valid_field (H := mini_json) tree_fixed)
                         (matching_paths ["data"] pattern tree_fixable)))
              (length (matching_paths ["data"] pattern tree_fixable))
            :: [MsgAllUpdated])%list
      /\ length (List.filter (has_valid_field (H := mini_json) tree_fixed)
                   (matching_paths ["data"] pattern tree_fixable))
         <= length (matching_paths ["data"] pattern tree_fixable).
Proof.
  split; [exact run_tree_fixable |].
  exact (X2_summary_counts_valid_files (H := mini_json)
           ["data"] true tree_fixable tree_fixed _ run_tree_fixable).
Defined.

Example run_tree_array_without_fix :
  main (H := mini_json) ["data"] false tree_array
  = (Raise TypeError, tree_array, [MsgChecking 2 ["data"]]).
Proof.
  rewrite main_unfold, discovered_tree_array. cbv zeta.
  rewrite (count_valid_cons_raise (H := mini_json) _ _ _ _ _ _ _ _
             (array_file_pa false)).
  reflexivity.
Qed.

Example run_script_tree_fixable :
  run_script (H := mini_json) ["data"] true tree_fixable
  = (0%Z, tree_fixed,
     [MsgChecking 2 ["data"];
      MsgInvalidOrMissing file_pa JNull; MsgFixed (JStr "j-");
      MsgInvalidJSON file_b JSONDecodeError;
      MsgSummary 1 2; MsgAllUpdated]).
Proof. unfold run_script. now rewrite run_tree_fixable. Qed.

Lemma X3_validation_only_run_writes_nothing_witness :
  main (H := mini_json) ["data"] false tree_array
  = (Raise TypeError, tree_array, [MsgChecking 2 ["data"]])
  /\ tree_array = tree_array.
Proof.
  split; [exact run_tree_array_without_fix |].
  exact (X3_validation_only_run_writes_nothing (H := mini_json)
           ["data"] tree_array tree_array _ _ run_tree_array_without_fix).
Defined.

Lemma X4_only_discovered_files_change_witness :
  main (H := mini_json) ["data"] true tree_fixable
  = (Ret tt, tree_fixed,
     [MsgChecking 2 ["data"];
      MsgInvalidOrMissing file_pa JNull; MsgFixed (JStr "j-");
      MsgInvalidJSON file_b JSONDecodeError;
      MsgSummary 1 2; MsgAllUpdated])
  /\ dom tree_fixed = dom tree_fixable
  /\ forall q, ~ In q (matching_paths ["data"] pattern tree_fixable) ->
       tree_fixed !! q = tree_fixable !! q.
Proof.
  split; [exact run_tree_fixable |].
  exact (X4_only_discovered_files_change (H := mini_json)
           ["data"] true tree_fixable tree_fixed _ _ run_tree_fixable).
Defined.

Lemma readable_file_b_tree_array :
  readable_text tree_array file_b = Some doc_valid.
Proof. lookup_tree. Qed.

Lemma X5_valid_outcome_iff_witness :
  outcome (H := mini_json) file_b false tree_array = Some Valid.
Proof.
  apply (proj2 (X5_valid_outcome_iff (H := mini_json) file_b false tree_array)).
  exists doc_valid, [("PhaseEncodingDirection", JStr "j")], "j".
  split; [exact readable_file_b_tree_array |].
  split; [exact loads_doc_valid |].
  split; [reflexivity |].
  apply VALID_DIRECTIONS_elems. tauto.
Defined.

Lemma X8_fix_keeps_key_order_witness :
  validate_json (H := mini_json) file_pa true tree_fixable
  = (Ret true, tree_fixed,
     [MsgInvalidOrMissing file_pa JNull; MsgFixed (JStr "j-")])
  /\ outcome_of (Ret true)
       [MsgInvalidOrMissing file_pa JNull; MsgFixed (JStr "j-")]
     = Some InvalidFixed
  /\ exists text d text' d',
      readable_text tree_fixable file_pa = Some text
      /\ MiniJson.mini_loads text = Some (JObj d)
      /\ readable_text tree_fixed file_pa = Some text'
      /\ MiniJson.mini_loads text' = Some (JObj d')
      /\ map fst d'
         = if bool_decide (target ∈ map fst d) then map fst d
           else (map fst d ++ [target])%list.
Proof.
  split; [exact fix_file_pa |]. split; [reflexivity |].
  exact (X8_fix_keeps_key_order (H := mini_json)
           file_pa true tree_fixable tree_fixed _ _ fix_file_pa eq_refl).
Defined.

Lemma X9_exceptions_of_validate_json_witness :
  readable_text tree_array file_pa = Some doc_ped_array
  /\ MiniJson.mini_loads doc_ped_array
     = Some (JObj [("PhaseEncodingDirection", JArr [])])
  /\ validate_json (H := mini_json) file_pa true tree_array
     = (Raise TypeError, tree_array, []).
Proof.
  assert (Hread : readable_text tree_array file_pa = Some doc_ped_array)
    by lookup_tree.
  split; [exact Hread |]. split; [exact loads_doc_ped_array |].
  apply (proj2 (X9_exceptions_of_validate_json (H := mini_json)
                  file_pa true tree_array doc_ped_array _
                  Hread loads_doc_ped_array)
           [("PhaseEncodingDirection", JArr [])] eq_refl).
  left. exists []. reflexivity.
Defined.

Lemma X10_exit_status_witness :
  run_script (H := mini_json) ["data"] true tree_fixable
  = (0%Z, tree_fixed,
     [MsgChecking 2 ["data"];
      MsgInvalidOrMissing file_pa JNull; MsgFixed (JStr "j-");
      MsgInvalidJSON file_b JSONDecodeError;
      MsgSummary 1 2; MsgAllUpdated])
  /\ (0%Z = 0%Z \/ 0%Z = 1%Z).
Proof.
  split; [exact run_script_tree_fixable |].
  exact (proj1 (X10_exit_status (H := mini_json)
                  ["data"] true tree_fixable tree_fixed 0%Z _
                  run_script_tree_fixable)).
Defined.

Lemma X12_outcome_table_witness :
  outcome (H := mini_json) file_b true tree_fixable = Some ParseError.
Proof.
  apply (proj2 (proj1 (X12_outcome_table (H := mini_json)
                         file_b true tree_fixable))).
  exact unparsable_file_b.
Defined.

Example fixed_file_pa_has_valid_field :
  has_valid_field (H := mini_json) tree_fixed file_pa = true.
Proof.
  apply (has_valid_field_spec (H := mini_json)).
  exists (MiniJson.mini_dumps meta_fixed),
    [("dir", JStr "PA"); ("PhaseEncodingDirection", JStr "j-")], "j-".
  split; [lookup_tree |].
  split; [exact loads_dumps_meta_fixed |].
  split; [reflexivity |].
  apply VALID_DIRECTIONS_elems. tauto.
Qed.

Lemma X13_valid_files_stay_valid_witness :
  main (H := mini_json) ["data"] true tree_fixed
  = (Ret tt, tree_fixed,
     [MsgChecking 2 ["data"];
      MsgValid file_pa (JStr "j-");
      MsgInvalidJSON file_b JSONDecodeError;
      MsgSummary 1 2; MsgAllUpdated])
  /\ has_valid_field (H := mini_json) tree_fixed file_pa = true
  /\ has_valid_field (H := mini_json) tree_fixed file_pa = true.
Proof.
  split; [exact run_tree_fixed |].
  split; [exact fixed_file_pa_has_valid_field |].
  exact (X13_valid_files_stay_valid (H := mini_json)
           ["data"] true tree_fixed tree_fixed _ _ file_pa
           run_tree_fixed fixed_file_pa_has_valid_field).
Defined.
